(** * Clients in a sales zone: a verification model of [check_clientes.py]

    The script reads client records with a "lat,lon" coordinate string, loads
    the outer rings of the polygons of a KML document, and marks every client
    whose point lies inside at least one ring (ray casting).

    The model keeps the program's shape:
    - a Python [float] is the primitive binary64 [float] of the kernel, with
      Python's comparison, [min]/[max] and raising division written out;
    - a Python [str] is a [string] of code points below 256;
    - an exception is a value of [exn] carried by the [result] monad;
    - an ElementTree element is a rose tree, a DataFrame an ordered list of
      labelled columns;
    - the standard output is the set of characters its encoding has: the
      [print] of the parser's handler raises on any other ([Stdout]); the
      modules [Client] and [Frame] are the program on a standard output that
      takes every line. *)

From Stdlib Require Import ZArith List String Ascii Bool Lia PeanoNat.
From Stdlib Require Import Floats.
Import ListNotations.

(** * The program *)

(** ** Exceptions and results *)

Inductive exn : Set :=
  | IndexError
  | ZeroDivisionError
  | UnboundLocalError
  | KeyError
  | ValueError
  | AttributeError
  | UnicodeEncodeError.

Inductive result (A : Type) : Type :=
  | Ok (a : A)
  | Raise (e : exn).

Arguments Ok {A} a.
Arguments Raise {A} e.

Definition bind {A B : Type} (r : result A) (k : A -> result B) : result B :=
  match r with
  | Ok a => k a
  | Raise e => Raise e
  end.

Notation "x <- r ;; k" := (bind r (fun x => k))
  (at level 61, r at next level, right associativity).
Notation "' pat <- r ;; k" := (bind r (fun x => match x with pat => k end))
  (at level 61, pat pattern, r at next level, right associativity).

(** [l[i]] for a non-negative index. *)
Definition getitem {A : Type} (l : list A) (i : nat) : result A :=
  match nth_error l i with
  | Some a => Ok a
  | None => Raise IndexError
  end.

(** ** Python floats *)

Module PyFloat.

Local Open Scope float_scope.

(** [a < b], [a <= b], [a == b], [a != b] on floats. *)
Definition lt (a b : float) : bool := a <? b.
Definition le (a b : float) : bool := a <=? b.
Definition gt (a b : float) : bool := b <? a.
Definition eq (a b : float) : bool := a =? b.
Definition ne (a b : float) : bool := negb (a =? b).

(** The builtins [min(a, b)] and [max(a, b)]: the first argument is kept
    unless the second is strictly smaller (resp. strictly larger). *)
Definition min (a b : float) : float := if lt b a then b else a.
Definition max (a b : float) : float := if gt b a then b else a.

(** [a / b] raises on a zero divisor (either sign). *)
Definition truediv (a b : float) : result float :=
  if b =? 0 then Raise ZeroDivisionError else Ok (a / b).

End PyFloat.

(** ** Python strings *)

Module PyStr.

Local Open Scope char_scope.

Definition code (c : ascii) : nat := nat_of_ascii c.

Definition in_range (lo hi : nat) (c : ascii) : bool :=
  (lo <=? code c)%nat && (code c <=? hi)%nat.

(** [str.isspace] on one character below 256: TAB..CR, FS..US, space,
    NEL and the no-break space. *)
Definition isspace (c : ascii) : bool :=
  in_range 9 13 c || in_range 28 32 c || (code c =? 133)%nat || (code c =? 160)%nat.

Fixpoint span {A : Type} (f : A -> bool) (l : list A) : list A * list A :=
  match l with
  | [] => ([], [])
  | a :: rest =>
      if f a then let '(taken, others) := span f rest in (a :: taken, others)
      else ([], l)
  end.

Definition lstrip_by (f : ascii -> bool) (l : list ascii) : list ascii :=
  snd (span f l).

Definition strip_by (f : ascii -> bool) (l : list ascii) : list ascii :=
  rev (lstrip_by f (rev (lstrip_by f l))).

(** [s.split(sep)] for a one-character separator: every occurrence cuts,
    empty pieces are kept, and there is always at least one piece. *)
Fixpoint split_on (sep : ascii) (l : list ascii) : list (list ascii) :=
  match l with
  | [] => [[]]
  | c :: rest =>
      if Ascii.eqb c sep then [] :: split_on sep rest
      else match split_on sep rest with
           | piece :: pieces => (c :: piece) :: pieces
           | [] => [[c]]
           end
  end.

(** [s.split()]: the maximal runs of non-space characters. *)
Fixpoint split_ws (l : list ascii) : list (list ascii) :=
  match l with
  | [] => []
  | c :: rest =>
      if isspace c then split_ws rest
      else match rest with
           | [] => [[c]]
           | c' :: _ =>
               if isspace c' then [c] :: split_ws rest
               else match split_ws rest with
                    | piece :: pieces => (c :: piece) :: pieces
                    | [] => [[c]]
                    end
           end
  end.

Definition chars (s : string) : list ascii := list_ascii_of_string s.
Definition str (l : list ascii) : string := string_of_list_ascii l.

Definition strip (s : string) : string := str (strip_by isspace (chars s)).
Definition split (s : string) : list string := map str (split_ws (chars s)).
Definition split_sep (sep : ascii) (s : string) : list string :=
  map str (split_on sep (chars s)).

End PyStr.

(** ** The builtin [float(str)] *)

Module PyFloatOfStr.

Import PyStr.
Local Open Scope char_scope.

(** The whitespace [float] strips: the ASCII spaces, and the two other space
    characters below 256, which it first rewrites to a blank. *)
Definition float_space (c : ascii) : bool :=
  in_range 9 13 c || (code c =? 32)%nat || (code c =? 133)%nat || (code c =? 160)%nat.

Definition is_digit (c : ascii) : bool := in_range 48 57 c.

Definition digit_value (c : ascii) : Z := Z.of_nat (code c - 48).

Definition digits_value (ds : list ascii) : Z :=
  fold_left (fun acc d => (acc * 10 + digit_value d)%Z) ds 0%Z.

Definition lower (c : ascii) : ascii :=
  if in_range 65 90 c then ascii_of_nat (code c + 32) else c.

(** An underscore is accepted only between two digits. *)
Fixpoint underscores_ok (prev : option ascii) (l : list ascii) : bool :=
  match l with
  | [] => true
  | c :: rest =>
      if Ascii.eqb c "_" then
        match prev, rest with
        | Some p, d :: _ => is_digit p && is_digit d && underscores_ok (Some c) rest
        | _, _ => false
        end
      else underscores_ok (Some c) rest
  end.

Definition remove_underscores (l : list ascii) : list ascii :=
  filter (fun c => negb (Ascii.eqb c "_")) l.

Definition parse_sign (l : list ascii) : bool * list ascii :=
  match l with
  | "-" :: rest => (true, rest)
  | "+" :: rest => (false, rest)
  | _ => (false, l)
  end.

(** What follows the mantissa: nothing, or [e]/[E], an optional sign and at
    least one digit, up to the end of the string. *)
Definition parse_exponent (l : list ascii) : option Z :=
  match l with
  | [] => Some 0%Z
  | c :: rest =>
      if Ascii.eqb (lower c) "e" then
        let '(neg, rest1) := parse_sign rest in
        let '(ds, rest2) := span is_digit rest1 in
        match ds, rest2 with
        | _ :: _, [] => Some (if neg then (- digits_value ds)%Z else digits_value ds)
        | _, _ => None
        end
      else None
  end.

(** A decimal numeral [digits [. digits] [exponent]] with at least one digit
    in the mantissa, as the integer of its digits and a power of ten. *)
Definition parse_decimal (l : list ascii) : option (Z * Z) :=
  let '(int_part, rest1) := span is_digit l in
  let '(frac_part, rest2) :=
    match rest1 with
    | "." :: rest => span is_digit rest
    | _ => ([], rest1)
    end in
  match int_part ++ frac_part with
  | [] => None
  | ds =>
      match parse_exponent rest2 with
      | Some e => Some (digits_value ds, (e - Z.of_nat (List.length frac_part))%Z)
      | None => None
      end
  end.

(** The binary64 number nearest to [m * 10 ^ e] (ties to even), for [m >= 0]:
    an integer is rounded as it is, a quotient through the division of the
    format. *)
Definition round_decimal (neg : bool) (m e : Z) : spec_float :=
  match m with
  | Z0 => S754_zero neg
  | _ =>
      if (0 <=? e)%Z then
        binary_normalize prec emax (cond_Zopp neg (m * 10 ^ e)) 0 false
      else
        let '(q, e', l) := SFdiv_core_binary prec emax m 0 (10 ^ (- e)) 0 in
        binary_round_aux prec emax neg q e' l
  end.

Definition literal (word : string) (l : list ascii) : bool :=
  String.eqb (str (map lower l)) word.

(** What a string spells: an infinity, a NaN, or the decimal [m * 10 ^ e]
    with its sign. *)
Inductive numeral : Set :=
  | Infinity (neg : bool)
  | NotANumber
  | Decimal (neg : bool) (m e : Z).

(** The grammar of [float]: blanks around, underscores between digits, an
    optional sign, then [inf], [infinity] or [nan] in any case, or a decimal
    numeral. *)
Definition scan (s : string) : option numeral :=
  let body := strip_by float_space (chars s) in
  if underscores_ok None body then
    let '(neg, rest) := parse_sign (remove_underscores body) in
    if literal "inf" rest || literal "infinity" rest then Some (Infinity neg)
    else if literal "nan" rest then Some NotANumber
    else match parse_decimal rest with
         | Some (m, e) => Some (Decimal neg m e)
         | None => None
         end
  else None.

Definition float_value (n : numeral) : float :=
  match n with
  | Infinity neg => if neg then neg_infinity else infinity
  | NotANumber => nan
  | Decimal neg m e => SF2Prim (round_decimal neg m e)
  end.

(** [float(s)]; [None] stands for the [ValueError] of a string that is not a
    number. *)
Definition py_float (s : string) : option float :=
  option_map float_value (scan s).

End PyFloatOfStr.

(** ** Points and polygons *)

(** [class Point]: two attributes, longitude first. *)
Record Point : Set := mkPoint { lon : float; lat : float }.

(** A vertex is a [(lon, lat)] tuple. *)
Definition vertex : Set := (float * float)%type.

(** [class Polygon]: the vertex list as given, unchecked. *)
Record Polygon : Set := mkPolygon { coordinates : list vertex }.

(** [for i in l: st = body(st, i)], stopping at the first exception. *)
Fixpoint for_each {S I : Type} (body : S -> I -> result S) (l : list I) (st : S)
  : result S :=
  match l with
  | [] => Ok st
  | i :: rest => st' <- body st i ;; for_each body rest st'
  end.

Module Ray.

Import PyFloat.
Local Open Scope float_scope.

(** The local variables of [contains_point] that change in the loop;
    [xinters] is unbound until its first assignment. *)
Record locals : Set := mkLocals {
    p1x : float;
    p1y : float;
    inside : bool;
    xinters : option float
  }.

(** One iteration of [for i in range(1, n + 1)]. *)
Definition loop_body (coords : list vertex) (n : nat) (x y : float)
           (st : locals) (i : nat) : result locals :=
  '(p2x, p2y) <- getitem coords (i mod n) ;;
  st' <-
    (if gt y (min (p1y st) p2y) then
       if le y (max (p1y st) p2y) then
         if le x (max (p1x st) p2x) then
           xi <- (if ne (p1y st) p2y then
                    q <- truediv ((y - p1y st) * (p2x - p1x st)) (p2y - p1y st) ;;
                    Ok (Some (q + p1x st))
                  else Ok (xinters st)) ;;
           hit <- (if eq (p1x st) p2x then Ok true
                   else match xi with
                        | Some v => Ok (le x v)
                        | None => Raise UnboundLocalError
                        end) ;;
           Ok (mkLocals (p1x st) (p1y st)
                        (if hit then negb (inside st) else inside st) xi)
         else Ok st
       else Ok st
     else Ok st) ;;
  Ok (mkLocals p2x p2y (inside st') (xinters st')).

End Ray.

(** [Polygon.contains_point]: ray casting over the ring of edges. *)
Definition contains_point (self : Polygon) (point : Point) : result bool :=
  let x := lon point in
  let y := lat point in
  let n := List.length (coordinates self) in
  '(p1x, p1y) <- getitem (coordinates self) 0 ;;
  st <- for_each (Ray.loop_body (coordinates self) n x y) (seq 1 n)
                 (Ray.mkLocals p1x p1y false None) ;;
  Ok (Ray.inside st).

(** [point_in_any_polygon]: [None] is outside every zone; otherwise the
  polygons are tried in order until one contains the point. *)
Fixpoint any_polygon (point : Point) (polygons : list Polygon) : result bool :=
  match polygons with
  | [] => Ok false
  | polygon :: rest =>
      b <- contains_point polygon point ;;
      if b then Ok true else any_polygon point rest
  end.

Definition point_in_any_polygon (point : option Point) (polygons : list Polygon)
  : result bool :=
  match point with
  | None => Ok false
  | Some p => any_polygon p polygons
  end.

(** *** The crossing rule in the words of the specification *)

Module RaySpec.

Import PyFloat.
Local Open Scope float_scope.

(** The edge [(p1, p2)] crosses the ray from [(x, y)] towards [+x]. *)
Definition crossing (x y : float) (e : vertex * vertex) : bool :=
  let '((p1x, p1y), (p2x, p2y)) := e in
  gt y (min p1y p2y) && le y (max p1y p2y) && le x (max p1x p2x)
  && (eq p1x p2x || le x ((y - p1y) * (p2x - p1x) / (p2y - p1y) + p1x)).

(** The edges of the ring, the last vertex joined to the first. *)
Definition ring_edges (coords : list vertex) : list (vertex * vertex) :=
  combine coords (tl coords ++ firstn 1 coords).

Definition crossings (x y : float) (coords : list vertex) : nat :=
  List.length (filter (crossing x y) (ring_edges coords)).

(** A flag toggled by each crossing edge. *)
Definition toggle (x y : float) (inside : bool) (e : vertex * vertex) : bool :=
  if crossing x y e then negb inside else inside.

Definition parity_flag (x y : float) (coords : list vertex) : bool :=
  fold_left (toggle x y) (ring_edges coords) false.

(** Starting the ring [k] vertices later. *)
Definition rotate {A : Type} (k : nat) (l : list A) : list A :=
  skipn k l ++ firstn k l.

End RaySpec.

(** ** KML boundaries *)

Module Kml.

Import PyStr PyFloatOfStr.
Local Open Scope string_scope.

(** An ElementTree element: tag (namespace in braces), text, children. *)
#[warnings="-register-all"]
Inductive element : Set :=
  | Element (tag : string) (text : option string) (children : list element).

Definition tag (e : element) : string := let '(Element t _ _) := e in t.
Definition text (e : element) : option string := let '(Element _ t _) := e in t.
Definition children (e : element) : list element := let '(Element _ _ c) := e in c.

(** [e.iter()]: the element, then its subtree in document order. *)
Fixpoint iter (e : element) : list element :=
  match e with
  | Element _ _ cs =>
      e :: (fix subtrees (l : list element) : list element :=
              match l with
              | [] => []
              | c :: rest => (iter c ++ subtrees rest)%list
              end) cs
  end.

(** The step [//name] of a path: every element below [e] with that tag. *)
Definition descendants (name : string) (e : element) : list element :=
  filter (fun d => String.eqb (tag d) name) (tl (iter e)).

Definition ns : string := "{http://www.opengis.net/kml/2.2}".

(** [root.findall('.//kml:Polygon', ns)] *)
Definition findall_polygons (root : element) : list element :=
  descendants (ns ++ "Polygon") root.

(** [polygon_elem.find('.//kml:outerBoundaryIs//kml:coordinates', ns)] *)
Definition find_outer_coordinates (polygon_elem : element) : option element :=
  hd_error (flat_map (descendants (ns ++ "coordinates"))
                     (descendants (ns ++ "outerBoundaryIs") polygon_elem)).

(** One ["lon,lat[,elevation]"] tuple; [None] when it is skipped. *)
Definition parse_coord_set (coord_set : string) : option vertex :=
  match split_sep "," coord_set with
  | p0 :: p1 :: _ =>
      match py_float p0 with
      | Some lon =>
          match py_float p1 with
          | Some lat => Some (lon, lat)
          | None => None
          end
      | None => None
      end
  | _ => None
  end.

Fixpoint filter_map {A B : Type} (f : A -> option B) (l : list A) : list B :=
  match l with
  | [] => []
  | a :: rest =>
      match f a with
      | Some b => b :: filter_map f rest
      | None => filter_map f rest
      end
  end.

Definition parse_kml_coordinates (coord_string : string) : list vertex :=
  filter_map parse_coord_set (split (strip coord_string)).

(** The polygons of one [Polygon] element: its outer ring when that has a
    non-empty text and at least three vertices, nothing otherwise. *)
Definition polygon_of (polygon_elem : element) : list Polygon :=
  match find_outer_coordinates polygon_elem with
  | Some outer_boundary =>
      match text outer_boundary with
      | Some t =>
          if String.eqb t "" then []
          else
            let coords := parse_kml_coordinates t in
            if (3 <=? List.length coords)%nat then [mkPolygon coords] else []
      | None => []
      end
  | None => []
  end.

(** [load_kml_polygons], from the parsed document. *)
Definition load_kml_polygons (root : element) : list Polygon :=
  flat_map polygon_of (findall_polygons root).

End Kml.

(** ** Client coordinates *)

Module Client.

Import PyStr PyFloatOfStr.
Local Open Scope string_scope.

(** The [ValueError]s of the parser's body, as their messages tell them
    apart. *)
Inductive parse_error : Set :=
  | CouldNotConvert (token : string)
  | NotEnoughValues (got : nat)
  | TooManyValues.

Definition to_float (token : string) : parse_error + float :=
  match py_float token with
  | Some f => inr f
  | None => inl (CouldNotConvert token)
  end.

(** [lat, lon = map(float, tokens)]: the tokens are converted one at a time
    as the unpacking asks for them, a third one included. *)
Definition unpack_pair (tokens : list string) : parse_error + Point :=
  match tokens with
  | [] => inl (NotEnoughValues 0)
  | t0 :: rest0 =>
      match to_float t0 with
      | inl e => inl e
      | inr lat =>
          match rest0 with
          | [] => inl (NotEnoughValues 1)
          | t1 :: rest1 =>
              match to_float t1 with
              | inl e => inl e
              | inr lon =>
                  match rest1 with
                  | [] => inr (mkPoint lon lat)
                  | t2 :: _ =>
                      match to_float t2 with
                      | inl e => inl e
                      | inr _ => inl TooManyValues
                      end
                  end
              end
          end
      end
  end.

(** A line printed by the handler: the raw string and the error. *)
Definition log_line : Set := (string * parse_error)%type.

(** [parse_client_coordinates] on a standard output that takes every line:
    the cell is a string, or missing ([None] here, what [pd.isna] accepts).
    The result is the returned value, [None] for Python's [None], and what was
    printed.  The [print] of the handler is taken to succeed here;
    [Stdout.parse_client_coordinates] below is the function with a [print]
    that can raise. *)
Definition parse_client_coordinates (coord_string : option string)
  : option Point * list log_line :=
  match coord_string with
  | None => (None, [])
  | Some s =>
      match unpack_pair (split_sep "," s) with
      | inr p => (Some p, [])
      | inl e => (None, [(s, e)])
      end
  end.

End Client.

(** ** The annotation pipeline *)

Module Frame.

Local Open Scope string_scope.

(** What a cell holds along the run: text read from the CSV (or a missing
    value), a parsed point (or [None]), a flag. *)
Inductive cell : Set :=
  | Raw (s : option string)
  | Geo (p : option Point)
  | Flag (b : bool).

(** A DataFrame: labelled columns in order, labels distinct (as [read_csv]
    makes them), every column as long as the index. *)
Definition DataFrame : Set := list (string * list cell).

Definition labels (df : DataFrame) : list string := map fst df.

Definition has_column (df : DataFrame) (label : string) : bool :=
  existsb (String.eqb label) (labels df).

(** [df[label]] *)
Fixpoint getitem_col (df : DataFrame) (label : string) : result (list cell) :=
  match df with
  | [] => Raise KeyError
  | (l, values) :: rest =>
      if String.eqb l label then Ok values else getitem_col rest label
  end.

(** [df[label] = values]: an existing column is replaced where it stands, a
    new one is added last. *)
Fixpoint setitem (df : DataFrame) (label : string) (values : list cell) : DataFrame :=
  match df with
  | [] => [(label, values)]
  | (l, old) :: rest =>
      if String.eqb l label then (l, values) :: rest
      else (l, old) :: setitem rest label values
  end.

(** [df.drop(columns=[label])] *)
Definition drop (df : DataFrame) (label : string) : result DataFrame :=
  if has_column df label
  then Ok (filter (fun c => negb (String.eqb (fst c) label)) df)
  else Raise KeyError.

(** [series.apply(f)] for an [f] that may raise. *)
Fixpoint apply {A B : Type} (f : A -> result B) (l : list A) : result (list B) :=
  match l with
  | [] => Ok []
  | a :: rest => b <- f a ;; bs <- apply f rest ;; Ok (b :: bs)
  end.

(** The frame [read_csv] builds from the text of a table. *)
Definition read_csv (table : list (string * list (option string))) : DataFrame :=
  map (fun c => (fst c, map Raw (snd c))) table.

(** [parse_client_coordinates] on a cell of the frame, on a standard output
    that takes every line. *)
Definition parse_cell (c : cell) : cell :=
  match c with
  | Raw s => Geo (fst (Client.parse_client_coordinates s))
  | Geo _ | Flag _ => Geo None
  end.

(** [lambda p: point_in_any_polygon(p, polygons)] on a cell of the frame. *)
Definition zone_cell (polygons : list Polygon) (c : cell) : result cell :=
  match c with
  | Geo p => b <- point_in_any_polygon p polygons ;; Ok (Flag b)
  | Raw _ | Flag _ => Raise AttributeError
  end.

(** Lines 130 to 149 of [main]: the frame handed to [to_csv], when every
    [print] succeeds. *)
Definition annotate (df : DataFrame) (polygons : list Polygon) : result DataFrame :=
  gps <- getitem_col df "Punto gps" ;;
  let df1 := setitem df "_point" (map parse_cell gps) in
  points <- getitem_col df1 "_point" ;;
  flags <- apply (zone_cell polygons) points ;;
  let df2 := setitem df1 "Inside_Zone" flags in
  drop df2 "_point".

(** [main] from the table read and the parsed KML document to the frame it
    writes, when every [print] succeeds. *)
Definition main (table : list (string * list (option string))) (kml : Kml.element)
  : result DataFrame :=
  let df := read_csv table in
  let polygons := Kml.load_kml_polygons kml in
  annotate df polygons.


(** Every column has [n] cells. *)
Definition height (n : nat) (df : DataFrame) : Prop :=
  Forall (fun c => List.length (snd c) = n) df.

End Frame.

(** ** The handler's [print] and the standard output *)

Module Stdout.

Import PyStr Client Frame.
Local Open Scope string_scope.

(** The encoding of the standard output, as the characters outside ASCII it
    can encode; the encodings Python writes text with all have ASCII. *)
Definition encoding : Type := ascii -> bool.

Definition encodable (enc : encoding) (c : ascii) : bool :=
  (code c <? 128)%nat || enc c.

(** [print(f"Error parsing coordinates '{coord_string}': {e}")].  The line
    holds the raw string as it is; the message of [e] adds ASCII text and, in
    the [repr] of a token, characters of the string or their ASCII escapes.
    The line is encoded whole before anything is written: a character the
    encoding lacks raises [UnicodeEncodeError] and nothing is printed. *)
Definition print_error (enc : encoding) (line : log_line) : result (list log_line) :=
  if forallb (encodable enc) (chars (fst line)) then Ok [line]
  else Raise UnicodeEncodeError.

(** [parse_client_coordinates] as written: the handler catches what the body
    raises, and what its own [print] raises leaves the function. *)
Definition parse_client_coordinates (enc : encoding) (coord_string : option string)
  : result (option Point * list log_line) :=
  match coord_string with
  | None => Ok (None, [])
  | Some s =>
      match unpack_pair (split_sep "," s) with
      | inr p => Ok (Some p, [])
      | inl e => printed <- print_error enc (s, e) ;; Ok (None, printed)
      end
  end.

(** [parse_client_coordinates] on a cell of the frame. *)
Definition parse_cell (enc : encoding) (c : cell) : result cell :=
  match c with
  | Raw s => '(p, _) <- parse_client_coordinates enc s ;; Ok (Geo p)
  | Geo _ | Flag _ => Ok (Geo None)
  end.

(** Lines 130 to 149 of [main], with [apply] stopping at the first cell whose
    parse raises. *)
Definition annotate (enc : encoding) (df : DataFrame) (polygons : list Polygon)
  : result DataFrame :=
  gps <- getitem_col df "Punto gps" ;;
  parsed <- apply (parse_cell enc) gps ;;
  let df1 := setitem df "_point" parsed in
  points <- getitem_col df1 "_point" ;;
  flags <- apply (zone_cell polygons) points ;;
  let df2 := setitem df1 "Inside_Zone" flags in
  drop df2 "_point".

(** [main] from the frame read and the document parsed to the frame handed to
    [to_csv]. *)
Definition main (enc : encoding) (table : list (string * list (option string)))
           (kml : Kml.element) : result DataFrame :=
  let df := read_csv table in
  let polygons := Kml.load_kml_polygons kml in
  annotate enc df polygons.

End Stdout.

(** ** The report of [main] and what follows the write *)

Module Report.

Import Frame.
Local Open Scope string_scope.

(** [series.notna()] on one cell: [None] and NaN are missing. *)
Definition notna (c : cell) : bool :=
  match c with
  | Raw None | Geo None => false
  | _ => true
  end.

(** [series.sum()] on the flags counts the true ones, [(~series).sum()] the
    false ones. *)
Definition is_true (c : cell) : bool :=
  match c with
  | Flag b => b
  | _ => false
  end.

Definition is_false (c : cell) : bool :=
  match c with
  | Flag b => negb b
  | _ => false
  end.

Definition count (f : cell -> bool) (col : list cell) : nat :=
  List.length (filter f col).

(** The three numbers [main] prints (lines 130 to 142): valid coordinates,
    clients inside, clients outside. *)
Definition summary (df : DataFrame) (polygons : list Polygon)
  : result (nat * nat * nat) :=
  gps <- getitem_col df "Punto gps" ;;
  let df1 := setitem df "_point" (map parse_cell gps) in
  points <- getitem_col df1 "_point" ;;
  let valid_coords := count notna points in
  flags <- apply (zone_cell polygons) points ;;
  let df2 := setitem df1 "Inside_Zone" flags in
  zone <- getitem_col df2 "Inside_Zone" ;;
  let inside_count := count is_true zone in
  let outside_count := count is_false zone in
  Ok (valid_coords, inside_count, outside_count).



End Report.

(** ** The end of [mapas.py] *)

Module Mapas.

Import Frame.
Local Open Scope string_scope.

(** Lines 51 and 52: the two [drop]s between the last print of the frame and
    the write of line 56. *)
Definition drop_helpers (gdf_clientes : DataFrame) : result DataFrame :=
  without_geometry <- drop gdf_clientes "geometry" ;;
  drop without_geometry "".

End Mapas.

(** * Facts *)

(** ** Facts about binary64 *)

Module Binary64.

Local Open Scope Z_scope.

Lemma fexp_eq (e : Z) : fexp prec emax e = Z.max (e - 53) (-1074).
Proof. reflexivity. Qed.

Lemma digits2_size (p : positive) : digits2_pos p = Pos.size p.
Proof. induction p; simpl; congruence. Qed.

Lemma digits2_upper (p : positive) : Zpos p < 2 ^ Zpos (digits2_pos p).
Proof.
  rewrite digits2_size. pose proof (Pos.size_gt p) as H.
  apply Pos2Z.pos_lt_pos in H. rewrite Pos2Z.inj_pow in H. exact H.
Qed.

Lemma digits2_lower (p : positive) : 2 ^ (Zpos (digits2_pos p) - 1) <= Zpos p.
Proof.
  rewrite digits2_size. pose proof (Pos.size_le p) as H.
  apply Pos2Z.pos_le_pos in H. rewrite Pos2Z.inj_pow in H.
  replace (Zpos (Pos.size p)) with (Z.succ (Zpos (Pos.size p) - 1)) in H by lia.
  rewrite Z.pow_succ_r in H by lia. lia.
Qed.

Lemma iter_xO (d m : positive) : Zpos (Pos.iter xO m d) = Zpos m * 2 ^ Zpos d.
Proof.
  induction d as [|d IH] using Pos.peano_ind.
  - simpl. lia.
  - rewrite Pos.iter_succ, Pos2Z.inj_succ, Z.pow_succ_r by lia.
    rewrite Pos2Z.inj_xO, IH. ring.
Qed.

(** Aligning a mantissa to a smaller exponent multiplies it by the
    matching power of two. *)
Lemma shl_align_value (m : positive) (e e' : Z) :
  e' <= e -> Zpos (fst (shl_align m e e')) = Zpos m * 2 ^ (e - e').
Proof.
  intros H. unfold shl_align.
  destruct (e' - e) as [|p|p] eqn:E; try lia; simpl fst.
  - replace (e - e') with 0 by lia. simpl. lia.
  - rewrite iter_xO. f_equal. f_equal. lia.
Qed.

Lemma shl_align_exp (m : positive) (e e' : Z) :
  snd (shl_align m e e') = Z.min e e'.
Proof.
  unfold shl_align. destruct (e' - e) eqn:E; simpl; lia.
Qed.

(** *** Comparison *)

Lemma SFcompare_antisym (x y : spec_float) :
  SFcompare y x = option_map CompOpp (SFcompare x y).
Proof.
  destruct x as [sx|sx| |sx mx ex], y as [sy|sy| |sy my ey]; simpl;
    try reflexivity;
    try (destruct sx; reflexivity); try (destruct sy; reflexivity);
    try (destruct sx, sy; reflexivity).
  assert (Hm : Pos.compare_cont Eq my mx = CompOpp (Pos.compare_cont Eq mx my))
    by (rewrite Pos.compare_cont_antisym; reflexivity).
  rewrite (Z.compare_antisym ex ey), Hm.
  destruct sx, sy; try reflexivity; destruct (ex ?= ey); simpl;
    try rewrite CompOpp_involutive; reflexivity.
Qed.

Lemma SFltb_not_leb (a y : spec_float) :
  SFltb a y = true -> SFleb y a = false.
Proof.
  unfold SFltb, SFleb. rewrite (SFcompare_antisym a y).
  destruct (SFcompare a y) as [[]|]; simpl; congruence.
Qed.

Lemma SFltb_not_eqb (a b : spec_float) :
  SFltb a b = true -> SFeqb a b = false /\ SFeqb b a = false.
Proof.
  unfold SFltb, SFeqb. rewrite (SFcompare_antisym a b).
  destruct (SFcompare a b) as [[]|]; simpl; auto; congruence.
Qed.

Lemma bounded_inv (m : positive) (e : Z) :
  bounded prec emax m e = true ->
  -1074 <= e /\ Zpos (digits2_pos m) <= 53
  /\ (e = -1074 \/ Zpos (digits2_pos m) = 53).
Proof.
  unfold bounded, canonical_mantissa. rewrite fexp_eq.
  intros H. apply andb_true_iff in H. destruct H as [H _].
  apply Z.eqb_eq in H. lia.
Qed.

(** Two canonical mantissas with different exponents denote different
    numbers. *)
Lemma aligned_lt (mx my : positive) (ex ey : Z) :
  bounded prec emax mx ex = true -> bounded prec emax my ey = true ->
  ex < ey -> Zpos mx < Zpos my * 2 ^ (ey - ex).
Proof.
  intros Bx By Hlt.
  apply bounded_inv in Bx. apply bounded_inv in By.
  destruct Bx as (Ex & Dx & _). destruct By as (_ & _ & [Ey|Dy]); [lia|].
  pose proof (digits2_upper mx) as Ux.
  pose proof (digits2_lower my) as Ly. rewrite Dy in Ly.
  assert (2 ^ Zpos (digits2_pos mx) <= 2 ^ 53) by (apply Z.pow_le_mono_r; lia).
  assert (2 ^ 1 <= 2 ^ (ey - ex)) by (apply Z.pow_le_mono_r; lia).
  change (2 ^ (53 - 1)) with 4503599627370496 in Ly.
  change (2 ^ 53) with 9007199254740992 in *.
  change (2 ^ 1) with 2 in *. nia.
Qed.


(** *** Right shifts keep a mantissa positive while digits remain *)

Lemma shr_1_pos (mrs : shr_record) (q : positive) :
  shr_m mrs = Zpos q -> 1 < Zpos (digits2_pos q) ->
  exists q', shr_m (shr_1 mrs) = Zpos q'
             /\ Zpos (digits2_pos q') = Zpos (digits2_pos q) - 1.
Proof.
  destruct mrs as [m r s]. cbn [shr_m]. intros -> H.
  destruct q as [q|q|]; cbn [digits2_pos shr_1 shr_m] in *;
    [exists q; split; auto; lia | exists q; split; auto; lia | lia].
Qed.

Lemma iter_shr_1_pos (p : positive) : forall (mrs : shr_record) (q : positive),
  shr_m mrs = Zpos q -> Zpos p < Zpos (digits2_pos q) ->
  exists q', shr_m (iter_pos shr_1 p mrs) = Zpos q'
             /\ Zpos (digits2_pos q') = Zpos (digits2_pos q) - Zpos p.
Proof.
  induction p as [p IH|p IH|]; intros mrs q Hm Hd; cbn [iter_pos].
  - destruct (shr_1_pos mrs q Hm) as (q1 & H1 & D1); [lia|].
    destruct (IH _ _ H1) as (q2 & H2 & D2); [lia|].
    destruct (IH _ _ H2) as (q3 & H3 & D3); [lia|].
    exists q3; split; auto; lia.
  - destruct (IH _ _ Hm) as (q2 & H2 & D2); [lia|].
    destruct (IH _ _ H2) as (q3 & H3 & D3); [lia|].
    exists q3; split; auto; lia.
  - apply shr_1_pos; auto.
Qed.

Lemma shr_1_nonneg (mrs : shr_record) :
  0 <= shr_m mrs -> 0 <= shr_m (shr_1 mrs).
Proof.
  destruct mrs as [m r s]. simpl. intros H.
  destruct m as [|q|q]; simpl; try lia; destruct q; simpl; lia.
Qed.

Lemma iter_shr_1_nonneg (p : positive) : forall mrs : shr_record,
  0 <= shr_m mrs -> 0 <= shr_m (iter_pos shr_1 p mrs).
Proof.
  induction p as [p IH|p IH|]; intros mrs H; cbn [iter_pos];
    auto using shr_1_nonneg.
Qed.

Lemma shr_m_of_loc (m : Z) (l : location) : shr_m (shr_record_of_loc m l) = m.
Proof. destruct l as [|[]]; reflexivity. Qed.

(** With an exponent at or above [emin], the shift to the format's exponent
    drops fewer bits than the mantissa has. *)
Lemma shr_fexp_pos (q : positive) (e : Z) (l : location) :
  -1074 <= e ->
  exists q', shr_m (fst (shr_fexp prec emax (Zpos q) e l)) = Zpos q'
             /\ -1074 <= snd (shr_fexp prec emax (Zpos q) e l).
Proof.
  intros He. unfold shr_fexp, shr. rewrite fexp_eq. simpl Zdigits2.
  destruct (Z.max (Zpos (digits2_pos q) + e - 53) (-1074) - e) as [|p|p] eqn:E;
    simpl fst; simpl snd.
  - exists q. rewrite shr_m_of_loc. split; auto.
  - destruct (iter_shr_1_pos p (shr_record_of_loc (Zpos q) l) q) as (q' & H & _).
    + apply shr_m_of_loc.
    + lia.
    + exists q'. split; auto. lia.
  - exists q. rewrite shr_m_of_loc. split; auto.
Qed.

Lemma shr_fexp_nonneg (m e : Z) (l : location) :
  0 <= m -> 0 <= shr_m (fst (shr_fexp prec emax m e l)).
Proof.
  intros Hm. unfold shr_fexp, shr.
  destruct (fexp prec emax (Zdigits2 m + e) - e); simpl fst;
    try apply iter_shr_1_nonneg; rewrite shr_m_of_loc; auto.
Qed.

Lemma round_nearest_even_pos (q : positive) (l : location) :
  exists q', round_nearest_even (Zpos q) l = Zpos q'.
Proof.
  destruct l as [|[]]; simpl; eauto.
  - destruct q; simpl; eauto.
Qed.

Lemma round_nearest_even_nonneg (m : Z) (l : location) :
  0 <= m -> 0 <= round_nearest_even m l.
Proof.
  intros H. destruct l as [|[]]; simpl; auto; try lia.
  destruct (Z.even m); lia.
Qed.

(** Neither a zero nor a NaN. *)
Definition SFnonzero (x : spec_float) : Prop :=
  match x with
  | S754_finite _ _ _ | S754_infinity _ => True
  | S754_zero _ | S754_nan => False
  end.

Definition SFnot_nan (x : spec_float) : Prop :=
  match x with
  | S754_nan => False
  | _ => True
  end.

Lemma binary_round_aux_nonzero (s : bool) (q : positive) (e : Z) (l : location) :
  -1074 <= e -> SFnonzero (binary_round_aux prec emax s (Zpos q) e l).
Proof.
  intros He. unfold binary_round_aux.
  destruct (shr_fexp_pos q e l He) as (q1 & H1 & E1).
  destruct (shr_fexp prec emax (Zpos q) e l) as [mrs1 e1]. simpl in H1, E1.
  rewrite H1.
  destruct (round_nearest_even_pos q1 (loc_of_shr_record mrs1)) as (q2 & ->).
  destruct (shr_fexp_pos q2 e1 loc_Exact E1) as (q3 & H3 & _).
  destruct (shr_fexp prec emax (Zpos q2) e1 loc_Exact) as [mrs3 e3]. simpl in H3.
  rewrite H3. destruct (e3 <=? emax - prec); exact I.
Qed.

Lemma binary_round_aux_not_nan (s : bool) (m e : Z) (l : location) :
  0 <= m -> SFnot_nan (binary_round_aux prec emax s m e l).
Proof.
  intros Hm. unfold binary_round_aux.
  pose proof (shr_fexp_nonneg m e l Hm) as H1.
  destruct (shr_fexp prec emax m e l) as [mrs1 e1]. simpl in H1.
  pose proof (round_nearest_even_nonneg _ (loc_of_shr_record mrs1) H1) as H2.
  pose proof (shr_fexp_nonneg _ e1 loc_Exact H2) as H3.
  destruct (shr_fexp prec emax _ e1 loc_Exact) as [mrs3 e3]. simpl in H3.
  destruct (shr_m mrs3); try lia; simpl; auto.
  destruct (e3 <=? 971); exact I.
Qed.

Lemma binary_round_nonzero (s : bool) (q : positive) (e : Z) :
  -1074 <= e -> SFnonzero (binary_round prec emax s q e).
Proof.
  intros He. unfold binary_round.
  pose proof (shl_align_exp q e (fexp prec emax (Zpos (digits2_pos q) + e))) as H.
  destruct (shl_align q e _) as [mz ez]. simpl in H.
  apply binary_round_aux_nonzero. rewrite fexp_eq in H. lia.
Qed.

Lemma binary_round_not_nan (s : bool) (q : positive) (e : Z) :
  SFnot_nan (binary_round prec emax s q e).
Proof.
  unfold binary_round. destruct (shl_align q e _) as [mz ez].
  apply binary_round_aux_not_nan. lia.
Qed.

Lemma binary_normalize_nonzero (m e : Z) (sz : bool) :
  m <> 0 -> -1074 <= e -> SFnonzero (binary_normalize prec emax m e sz).
Proof.
  intros Hm He. destruct m; [congruence| |]; simpl;
    apply binary_round_nonzero; auto.
Qed.

Lemma binary_normalize_not_nan (m e : Z) (sz : bool) :
  SFnot_nan (binary_normalize prec emax m e sz).
Proof. destruct m; simpl; auto using binary_round_not_nan. Qed.

(** *** Subtracting two different numbers never gives zero *)

Lemma finite_sub_mantissa (sx sy : bool) (mx my : positive) (ex ey : Z) :
  bounded prec emax mx ex = true -> bounded prec emax my ey = true ->
  SFcompare (S754_finite sx mx ex) (S754_finite sy my ey) <> Some Eq ->
  cond_Zopp sx (Zpos (fst (shl_align mx ex (Z.min ex ey))))
  - cond_Zopp sy (Zpos (fst (shl_align my ey (Z.min ex ey)))) <> 0.
Proof.
  intros Bx By Hc.
  rewrite !shl_align_value by lia.
  assert (Hne : sx = sy ->
                Zpos mx * 2 ^ (ex - Z.min ex ey)
                <> Zpos my * 2 ^ (ey - Z.min ex ey)).
  { intros <-. simpl in Hc.
    destruct (Z.compare_spec ex ey) as [E|L|G].
    - subst ey. rewrite Z.min_id, Z.sub_diag, !Z.mul_1_r.
      intros Heq. apply Hc. injection Heq as ->.
      change (Pos.compare_cont Eq my my) with (Pos.compare my my).
      rewrite Pos.compare_refl. destruct sx; reflexivity.
    - rewrite Z.min_l, Z.sub_diag, Z.mul_1_r by lia.
      pose proof (aligned_lt mx my ex ey Bx By L). lia.
    - rewrite Z.min_r, Z.sub_diag, Z.mul_1_r by lia.
      pose proof (aligned_lt my mx ey ex By Bx). lia. }
  assert (0 < Zpos mx * 2 ^ (ex - Z.min ex ey)) by
    (apply Z.mul_pos_pos; [lia | apply Z.pow_pos_nonneg; lia]).
  assert (0 < Zpos my * 2 ^ (ey - Z.min ex ey)) by
    (apply Z.mul_pos_pos; [lia | apply Z.pow_pos_nonneg; lia]).
  destruct sx, sy; unfold cond_Zopp; try lia;
    specialize (Hne eq_refl); lia.
Qed.

Lemma SFsub_nonzero (x y : spec_float) :
  valid_binary x = true -> valid_binary y = true ->
  SFltb x y = true \/ SFltb y x = true ->
  SFnonzero (SF64sub x y).
Proof.
  intros Vx Vy Hc.
  assert (Hne : SFcompare x y <> Some Eq).
  { unfold SFltb in Hc. rewrite (SFcompare_antisym x y) in Hc.
    destruct (SFcompare x y) as [[]|]; simpl in Hc;
      destruct Hc; congruence. }
  assert (Hnn : SFcompare x y <> None).
  { unfold SFltb in Hc. rewrite (SFcompare_antisym x y) in Hc.
    destruct (SFcompare x y) as [[]|]; simpl in Hc;
      destruct Hc; congruence. }
  destruct x as [sx|sx| |sx mx ex], y as [sy|sy| |sy my ey];
    simpl in Hne, Hnn; try congruence; try exact I;
    try (destruct sx, sy; simpl; solve [exact I | congruence]).
  simpl in Vx, Vy. unfold SF64sub, SFsub.
  apply binary_normalize_nonzero.
  - apply finite_sub_mantissa; auto.
  - apply bounded_inv in Vx. apply bounded_inv in Vy. lia.
Qed.

Lemma SFeqb_zero_nonzero (x : spec_float) :
  SFnonzero x -> SFeqb x (S754_zero false) = false.
Proof. destruct x as [s|s| |s m e]; simpl; try tauto; destruct s; auto. Qed.

(** *** Digits *)

Lemma Zdigits2_log2 (m : Z) : 0 < m -> Zdigits2 m = Z.log2 m + 1.
Proof.
  destruct m as [|p|p]; try lia. intros _. cbn [Zdigits2].
  rewrite digits2_size. destruct p; cbn [Pos.size Z.log2]; lia.
Qed.

Lemma Zdigits2_nonneg (m : Z) : 0 <= Zdigits2 m.
Proof. destruct m; cbn; lia. Qed.

Lemma Zdigits2_mono (a b : Z) : 0 <= a <= b -> Zdigits2 a <= Zdigits2 b.
Proof.
  intros H. destruct (Z.eq_dec a 0) as [-> | Ha]; [apply Zdigits2_nonneg|].
  rewrite !Zdigits2_log2 by lia. pose proof (Z.log2_le_mono a b). lia.
Qed.

Lemma Zdigits2_succ (m : Z) : 0 <= m -> Zdigits2 (m + 1) <= Zdigits2 m + 1.
Proof.
  intros H. destruct (Z.eq_dec m 0) as [-> | Hm]; [cbn; lia|].
  rewrite !Zdigits2_log2 by lia. pose proof (Z.log2_succ_le m).
  unfold Z.succ in *. lia.
Qed.

Lemma Zdigits2_shiftl (m s : Z) :
  0 < m -> 0 <= s -> Zdigits2 (Z.shiftl m s) = Zdigits2 m + s.
Proof.
  intros Hm Hs.
  assert (0 < Z.shiftl m s).
  { rewrite Z.shiftl_mul_pow2 by lia. apply Z.mul_pos_pos; [lia|].
    apply Z.pow_pos_nonneg; lia. }
  rewrite !Zdigits2_log2 by lia. rewrite Z.log2_shiftl by lia. lia.
Qed.

Lemma Zdigits2_lt_pow2 (m b : Z) : 0 <= m < 2 ^ b -> 0 <= b -> Zdigits2 m <= b.
Proof.
  intros H Hb. destruct (Z.eq_dec m 0) as [-> | Hm]; [cbn; lia|].
  rewrite Zdigits2_log2 by lia.
  assert (Z.log2 m < b) by (apply Z.log2_lt_pow2; lia). lia.
Qed.

(** The quotient of two positive integers has at least as many digits as
    their difference in digits. *)
Lemma Zdigits2_div (a b : Z) :
  0 < a -> 0 < b -> 1 <= Zdigits2 a - Zdigits2 b ->
  Zdigits2 a - Zdigits2 b <= Zdigits2 (a / b).
Proof.
  intros Ha Hb Hd.
  rewrite (Zdigits2_log2 a), (Zdigits2_log2 b) in * by lia.
  set (la := Z.log2 a) in *. set (lb := Z.log2 b) in *.
  assert (Hla : 2 ^ la <= a) by (apply Z.log2_spec; lia).
  assert (Hlb : b < 2 ^ (lb + 1)).
  { pose proof (Z.log2_spec b Hb) as H. unfold Z.succ in H. apply H. }
  assert (0 <= lb) by apply Z.log2_nonneg.
  assert (Hq : 2 ^ (la - (lb + 1)) <= a / b).
  { rewrite Z.pow_sub_r by lia.
    transitivity (a / 2 ^ (lb + 1)).
    - apply Z.div_le_mono; [apply Z.pow_pos_nonneg; lia | exact Hla].
    - apply Z.div_le_compat_l; lia. }
  assert (0 < a / b).
  { assert (0 < 2 ^ (la - (lb + 1))) by (apply Z.pow_pos_nonneg; lia). lia. }
  rewrite Zdigits2_log2 by lia.
  assert (la - (lb + 1) <= Z.log2 (a / b)) by (apply Z.log2_le_pow2; lia).
  lia.
Qed.

Lemma digits2_iter_xO (k m : positive) :
  Zpos (digits2_pos (Pos.iter xO m k)) = Zpos (digits2_pos m) + Zpos k.
Proof.
  induction k as [|k IH] using Pos.peano_ind.
  - cbn. lia.
  - rewrite Pos.iter_succ. cbn [digits2_pos]. lia.
Qed.

(** *** Rounding gives a number of the format *)

Lemma shr_1_digits (mrs : shr_record) :
  0 <= shr_m mrs ->
  0 <= shr_m (shr_1 mrs)
  /\ Zdigits2 (shr_m (shr_1 mrs)) = Z.max 0 (Zdigits2 (shr_m mrs) - 1).
Proof.
  destruct mrs as [m r s]. cbn [shr_m]. intros H.
  destruct m as [|q|q]; [cbn; lia | | lia].
  destruct q as [q|q|]; cbn [shr_1 shr_m Zdigits2 digits2_pos]; lia.
Qed.

Lemma iter_shr_1_digits (p : positive) : forall mrs : shr_record,
  0 <= shr_m mrs ->
  0 <= shr_m (iter_pos shr_1 p mrs)
  /\ Zdigits2 (shr_m (iter_pos shr_1 p mrs))
     = Z.max 0 (Zdigits2 (shr_m mrs) - Zpos p).
Proof.
  induction p as [p IH|p IH|]; intros mrs H; cbn [iter_pos].
  - destruct (shr_1_digits mrs H) as [H1 D1].
    destruct (IH _ H1) as [H2 D2]. destruct (IH _ H2) as [H3 D3].
    split; [exact H3|]. rewrite D3, D2, D1. lia.
  - destruct (IH _ H) as [H2 D2]. destruct (IH _ H2) as [H3 D3].
    split; [exact H3|]. rewrite D3, D2. lia.
  - apply shr_1_digits; exact H.
Qed.

(** The exponent [e] leaves the mantissa at least the bits of the format. *)
Definition aligned (m e : Z) : Prop := e <= fexp prec emax (Zdigits2 m + e).

Lemma shr_fexp_spec (m e : Z) (l : location) :
  0 <= m -> aligned m e ->
  let r := shr_fexp prec emax m e l in
  0 <= shr_m (fst r)
  /\ snd r = fexp prec emax (Zdigits2 m + e)
  /\ Zdigits2 (shr_m (fst r)) = Z.max 0 (Zdigits2 m - (snd r - e)).
Proof.
  unfold aligned. intros Hm Ha. cbv zeta. unfold shr_fexp, shr.
  pose proof (Zdigits2_nonneg m) as Hd.
  destruct (fexp prec emax (Zdigits2 m + e) - e) as [|p|p] eqn:E;
    cbn [fst snd]; try lia.
  - rewrite shr_m_of_loc. lia.
  - destruct (iter_shr_1_digits p (shr_record_of_loc m l)) as [H D].
    { now rewrite shr_m_of_loc. }
    rewrite shr_m_of_loc in D. split; [exact H|]. split; [lia|].
    rewrite D. lia.
Qed.

Lemma round_nearest_even_range (m : Z) (l : location) :
  m <= round_nearest_even m l <= m + 1.
Proof. destruct l as [|[]]; cbn [round_nearest_even]; try lia. destruct (Z.even m); lia. Qed.

(** Zero or a finite number. *)
Definition SFfinite (x : spec_float) : Prop :=
  match x with
  | S754_zero _ | S754_finite _ _ _ => True
  | S754_infinity _ | S754_nan => False
  end.

Lemma binary_round_aux_valid (s : bool) (m e : Z) (l : location) :
  0 <= m -> aligned m e ->
  valid_binary (binary_round_aux prec emax s m e l) = true
  /\ (Zdigits2 m + e <= 1023 -> SFfinite (binary_round_aux prec emax s m e l)).
Proof.
  intros Hm Ha. unfold binary_round_aux.
  destruct (shr_fexp_spec m e l Hm Ha) as (H1 & E1 & D1).
  destruct (shr_fexp prec emax m e l) as [mrs1 e1]. cbn [fst snd] in H1, E1, D1.
  set (m1 := shr_m mrs1) in *.
  set (m2 := round_nearest_even m1 (loc_of_shr_record mrs1)).
  pose proof (round_nearest_even_range m1 (loc_of_shr_record mrs1)) as R. fold m2 in R.
  assert (Dlo : Zdigits2 m1 <= Zdigits2 m2) by (apply Zdigits2_mono; lia).
  assert (Dhi : Zdigits2 m2 <= Zdigits2 m1 + 1).
  { transitivity (Zdigits2 (m1 + 1)); [apply Zdigits2_mono; lia|].
    now apply Zdigits2_succ. }
  rewrite fexp_eq in E1.
  assert (Ha2 : aligned m2 e1) by (unfold aligned; rewrite fexp_eq; lia).
  destruct (shr_fexp_spec m2 e1 loc_Exact) as (H3 & E3 & D3); [lia | exact Ha2 |].
  destruct (shr_fexp prec emax m2 e1 loc_Exact) as [mrs3 e3].
  cbn [fst snd] in H3, E3, D3. rewrite fexp_eq in E3.
  destruct (shr_m mrs3) as [|q|q] eqn:E; [now split | | lia].
  cbn [Zdigits2] in D3.
  destruct (Z.leb_spec e3 (emax - prec)) as [Hle | Hgt].
  - split; [|intros _; exact I].
    cbn [valid_binary]. unfold bounded, canonical_mantissa. rewrite fexp_eq.
    apply andb_true_iff. split; [apply Z.eqb_eq; lia | now apply Z.leb_le].
  - split; [reflexivity|]. intros Hb.
    change (emax - prec) with 971 in Hgt. lia.
Qed.

Lemma shl_align_fexp_spec (q : positive) (e : Z) :
  let r := shl_align q e (fexp prec emax (Zpos (digits2_pos q) + e)) in
  aligned (Zpos (fst r)) (snd r)
  /\ Zpos (digits2_pos (fst r)) + snd r = Zpos (digits2_pos q) + e.
Proof.
  cbv zeta. unfold aligned, shl_align. rewrite !fexp_eq.
  destruct (Z.max (Zpos (digits2_pos q) + e - 53) (-1074) - e) as [|k|k] eqn:E;
    cbn [fst snd Zdigits2]; rewrite ?fexp_eq; try lia.
  rewrite digits2_iter_xO. lia.
Qed.

Lemma binary_round_valid (s : bool) (q : positive) (e : Z) :
  valid_binary (binary_round prec emax s q e) = true
  /\ (Zpos (digits2_pos q) + e <= 1023 -> SFfinite (binary_round prec emax s q e)).
Proof.
  unfold binary_round.
  destruct (shl_align_fexp_spec q e) as [Ha Hd].
  destruct (shl_align q e _) as [mz ez]. cbn [fst snd] in Ha, Hd.
  destruct (binary_round_aux_valid s (Zpos mz) ez loc_Exact) as [V F];
    [lia | exact Ha |].
  split; [exact V|]. intros Hb. apply F. cbn [Zdigits2]. lia.
Qed.

Lemma binary_normalize_valid (m e : Z) (sz : bool) :
  valid_binary (binary_normalize prec emax m e sz) = true
  /\ (Zdigits2 m + e <= 1023 -> SFfinite (binary_normalize prec emax m e sz)).
Proof.
  destruct m as [|q|q]; cbn [binary_normalize Zdigits2];
    [now split | apply binary_round_valid | apply binary_round_valid].
Qed.

(** The quotient the division hands to the rounding: non-negative, aligned,
    and no larger in magnitude than the dividend. *)
Lemma SFdiv_core_integers (m1 m2 : Z) :
  0 < m1 -> 0 < m2 ->
  let '(q, e', _) := SFdiv_core_binary prec emax m1 0 m2 0 in
  0 <= q /\ aligned q e' /\ Zdigits2 q + e' <= Zdigits2 m1.
Proof.
  intros H1 H2. unfold SFdiv_core_binary.
  rewrite !Z.add_0_r, Z.sub_0_r, fexp_eq.
  set (d1 := Zdigits2 m1). set (d2 := Zdigits2 m2).
  set (e' := Z.min (Z.max (d1 - d2 - 53) (-1074)) 0).
  assert (Hs : 0 <= 0 - e') by lia.
  set (m' := match 0 - e' with
             | 0 => m1
             | Zpos _ => Z.shiftl m1 (0 - e')
             | Zneg _ => 0
             end).
  assert (Hm' : m' = Z.shiftl m1 (0 - e')).
  { unfold m'. destruct (0 - e') eqn:E; try reflexivity; lia. }
  assert (Hpos : 0 < m').
  { rewrite Hm', Z.shiftl_mul_pow2 by lia.
    apply Z.mul_pos_pos; [lia | apply Z.pow_pos_nonneg; lia]. }
  assert (Hd' : Zdigits2 m' = d1 + (0 - e')).
  { rewrite Hm'. now apply Zdigits2_shiftl. }
  pose proof (Z.div_eucl_eq m' m2) as Heq.
  assert (Hq : fst (Z.div_eucl m' m2) = m' / m2) by reflexivity.
  destruct (Z.div_eucl m' m2) as [q r]. cbn [fst] in Hq. subst q.
  assert (Q0 : 0 <= m' / m2) by (apply Z.div_pos; lia).
  assert (Q1 : m' / m2 <= m').
  { apply Z.div_le_upper_bound; [lia|]. nia. }
  assert (D1 : Zdigits2 (m' / m2) <= Zdigits2 m') by (apply Zdigits2_mono; lia).
  pose proof (Zdigits2_nonneg (m' / m2)) as D0.
  split; [exact Q0|]. split; [|lia].
  unfold aligned. rewrite fexp_eq.
  destruct (Z_le_gt_dec 1 (Zdigits2 m' - Zdigits2 m2)) as [Hbig | Hsmall].
  - pose proof (Zdigits2_div m' m2 Hpos H2 Hbig) as D2. fold d2 in D2. lia.
  - fold d2 in Hsmall. lia.
Qed.

(** *** The bits a right shift keeps and the last one it drops *)

Lemma shr_1_exact (mrs : shr_record) :
  0 <= shr_m mrs ->
  shr_m (shr_1 mrs) = Z.shiftr (shr_m mrs) 1
  /\ shr_r (shr_1 mrs) = Z.testbit (shr_m mrs) 0.
Proof.
  destruct mrs as [m r s]. cbn [shr_m]. intros H.
  destruct m as [|q|q]; [now split | | lia].
  destruct q as [q|q|]; now split.
Qed.

Lemma iter_shr_1_exact (p : positive) : forall mrs : shr_record,
  0 <= shr_m mrs ->
  shr_m (iter_pos shr_1 p mrs) = Z.shiftr (shr_m mrs) (Zpos p)
  /\ shr_r (iter_pos shr_1 p mrs) = Z.testbit (shr_m mrs) (Zpos p - 1).
Proof.
  induction p as [p IH|p IH|]; intros mrs H; cbn [iter_pos].
  - destruct (shr_1_exact mrs H) as [M1 _].
    assert (H1 : 0 <= shr_m (shr_1 mrs)) by now apply shr_1_nonneg.
    destruct (IH _ H1) as [M2 _].
    assert (H2 : 0 <= shr_m (iter_pos shr_1 p (shr_1 mrs)))
      by now apply iter_shr_1_nonneg.
    destruct (IH _ H2) as [M3 R3].
    rewrite M3, R3, M2, M1. rewrite !Z.shiftr_shiftr by lia.
    rewrite Z.shiftr_spec by lia.
    split; f_equal; lia.
  - assert (H1 : 0 <= shr_m (iter_pos shr_1 p mrs))
      by now apply iter_shr_1_nonneg.
    destruct (IH _ H) as [M1 _]. destruct (IH _ H1) as [M2 R2].
    rewrite M2, R2, M1. rewrite Z.shiftr_shiftr by lia.
    rewrite Z.shiftr_spec by lia.
    split; f_equal; lia.
  - apply shr_1_exact; exact H.
Qed.

(** *** Where rounding overflows *)

(** The least magnitude that rounds to an infinity: half an ulp above the
    largest finite number. *)
Definition overflow_threshold : Z := 2 ^ 1024 - 2 ^ 970.

Lemma Zdigits2_bounds (m : Z) :
  0 < m -> 2 ^ (Zdigits2 m - 1) <= m < 2 ^ Zdigits2 m.
Proof.
  destruct m as [|q|q]; try lia. intros _. cbn [Zdigits2].
  split; [apply digits2_lower | apply digits2_upper].
Qed.

Lemma Zdigits2_eq (m d : Z) :
  0 < d -> 2 ^ (d - 1) <= m < 2 ^ d -> Zdigits2 m = d.
Proof.
  intros Hd [Hlo Hhi].
  assert (0 < m) by (assert (0 < 2 ^ (d - 1)) by (apply Z.pow_pos_nonneg; lia); lia).
  rewrite Zdigits2_log2 by lia.
  assert (Z.log2 m = d - 1); [|lia].
  apply Z.log2_unique; [lia|]. replace (Z.succ (d - 1)) with d by lia. lia.
Qed.

Lemma round_half_down (mrs : shr_record) :
  shr_r mrs = false ->
  round_nearest_even (shr_m mrs) (loc_of_shr_record mrs) = shr_m mrs.
Proof. destruct mrs as [m r s]. cbn. intros ->. now destruct s. Qed.

Lemma round_half_up_odd (mrs : shr_record) :
  shr_r mrs = true -> Z.odd (shr_m mrs) = true ->
  round_nearest_even (shr_m mrs) (loc_of_shr_record mrs) = shr_m mrs + 1.
Proof.
  destruct mrs as [m r s]. cbn [shr_m shr_r]. intros -> Hodd.
  destruct s; cbn [loc_of_shr_record round_nearest_even]; [reflexivity|].
  rewrite <- Z.negb_odd, Hodd. reflexivity.
Qed.

(** An integer of at least 54 bits, taken at exponent 0, rounds to a finite
    number exactly below the threshold. *)
Lemma binary_round_aux_range (s : bool) (m : Z) (l : location) :
  0 <= m -> 54 <= Zdigits2 m ->
  (m < overflow_threshold -> SFfinite (binary_round_aux prec emax s m 0 l))
  /\ (overflow_threshold <= m ->
      binary_round_aux prec emax s m 0 l = S754_infinity s).
Proof.
  intros Hm Hd.
  assert (Hpos : 0 < m) by (destruct m; cbn in Hd; lia).
  pose proof (Zdigits2_bounds m Hpos) as [Blo Bhi].
  assert (Ha : aligned m 0) by (unfold aligned; rewrite fexp_eq; lia).
  destruct (Z_le_gt_dec (Zdigits2 m) 1023) as [Hsmall | Hbig].
  { (* far below the range *)
    destruct (binary_round_aux_valid s m 0 l) as [_ F]; [lia | exact Ha |].
    split; [intros _; apply F; lia|].
    intros Hge. exfalso. unfold overflow_threshold in Hge.
    assert (2 ^ Zdigits2 m <= 2 ^ 1023) by (apply Z.pow_le_mono_r; lia).
    change (2 ^ 1024) with (2 * 2 ^ 1023) in Hge.
    assert (2 ^ 970 < 2 ^ 1023) by (apply Z.pow_lt_mono_r; lia).
    lia. }
  (* at least 1024 bits: the first shift drops [Zdigits2 m - 53] bits *)
  unfold binary_round_aux.
  destruct (shr_fexp_spec m 0 l) as (H1 & E1 & D1); [lia | exact Ha |].
  assert (Hm1 : shr_m (fst (shr_fexp prec emax m 0 l))
                = Z.shiftr m (Zdigits2 m - 53)
                /\ shr_r (fst (shr_fexp prec emax m 0 l))
                   = Z.testbit m (Zdigits2 m - 53 - 1)).
  { unfold shr_fexp, shr. rewrite fexp_eq.
    destruct (Z.max (Zdigits2 m + 0 - 53) (-1074) - 0) as [|p|p] eqn:E; try lia.
    cbn [fst].
    destruct (iter_shr_1_exact p (shr_record_of_loc m l)) as [M R].
    { rewrite shr_m_of_loc. lia. }
    rewrite shr_m_of_loc in M, R. rewrite M, R.
    replace (Zdigits2 m - 53) with (Zpos p) by lia. now split. }
  destruct Hm1 as [M1 R1].
  destruct (shr_fexp prec emax m 0 l) as [mrs1 e1]. cbn [fst snd] in *.
  rewrite fexp_eq in E1.
  set (m1 := shr_m mrs1) in *.
  set (m2 := round_nearest_even m1 (loc_of_shr_record mrs1)).
  pose proof (round_nearest_even_range m1 (loc_of_shr_record mrs1)) as R.
  fold m2 in R.
  assert (Dm1 : Zdigits2 m1 = 53) by lia.
  assert (P1 : 0 < m1) by (destruct m1; cbn in Dm1; lia).
  pose proof (Zdigits2_bounds m1 P1) as [B1lo B1hi]. rewrite Dm1 in B1lo, B1hi.
  assert (Dlo : 53 <= Zdigits2 m2)
    by (rewrite <- Dm1; apply Zdigits2_mono; lia).
  assert (Dhi : Zdigits2 m2 <= 54).
  { apply Zdigits2_lt_pow2; [|lia].
    change (2 ^ 54) with (2 * 2 ^ 53). lia. }
  assert (Ha2 : aligned m2 e1) by (unfold aligned; rewrite fexp_eq; lia).
  destruct (shr_fexp_spec m2 e1 loc_Exact) as (H3 & E3 & D3); [lia | exact Ha2 |].
  destruct (shr_fexp prec emax m2 e1 loc_Exact) as [mrs3 e3].
  cbn [fst snd] in H3, E3, D3. rewrite fexp_eq in E3.
  assert (Dm3 : Zdigits2 (shr_m mrs3) = 53) by lia.
  destruct (shr_m mrs3) as [|q|q] eqn:Eq3; [cbn in Dm3; lia | | lia].
  change (emax - prec) with 971.
  destruct (Z_le_gt_dec 1025 (Zdigits2 m)) as [Hhuge | H1024].
  { (* 1025 bits or more *)
    split.
    - intros Hlt. exfalso. unfold overflow_threshold in Hlt.
      assert (2 ^ 1024 <= 2 ^ (Zdigits2 m - 1)) by (apply Z.pow_le_mono_r; lia).
      assert (0 < 2 ^ 970) by (apply Z.pow_pos_nonneg; lia). lia.
    - intros _. destruct (Z.leb_spec e3 971); [lia | reflexivity]. }
  (* exactly 1024 bits *)
  assert (Dm : Zdigits2 m = 1024) by lia. rewrite Dm in *.
  replace (1024 - 53) with 971 in M1 by lia.
  replace (1024 - 53 - 1) with 970 in R1 by lia.
  rewrite Z.shiftr_div_pow2 in M1 by lia.
  set (c := m / 2 ^ 970).
  assert (Hc : m1 = c / 2).
  { rewrite M1. unfold c. rewrite Z.div_div by lia.
    now change (2 ^ 970 * 2) with (2 ^ 971). }
  assert (Hr : shr_r mrs1 = Z.odd c).
  { rewrite R1. rewrite Z.testbit_odd, Z.shiftr_div_pow2 by lia. reflexivity. }
  pose proof (Zdiv2_odd_eqn c) as Hceq. rewrite Z.div2_div in Hceq.
  rewrite <- Hc in Hceq.
  assert (P970 : 0 < 2 ^ 970) by (apply Z.pow_pos_nonneg; lia).
  split.
  - intros Hlt.
    assert (Hclt : c < 2 ^ 54 - 1).
    { apply Z.div_lt_upper_bound; [exact P970|].
      unfold overflow_threshold in Hlt.
      change (2 ^ 1024) with (2 ^ 970 * 2 ^ 54) in Hlt. lia. }
    assert (Hm2 : m2 < 2 ^ 53).
    { change (2 ^ 54) with (2 * 2 ^ 53) in Hclt.
      destruct (shr_r mrs1) eqn:Er.
      - rewrite <- Hr in Hceq. lia.
      - unfold m2, m1. rewrite round_half_down by exact Er. fold m1. lia. }
    assert (Zdigits2 m2 = 53) by (apply Zdigits2_eq; lia).
    destruct (Z.leb_spec e3 971); [exact I | lia].
  - intros Hge.
    assert (Hcge : 2 ^ 54 - 1 <= c).
    { apply Z.div_le_lower_bound; [exact P970|].
      unfold overflow_threshold in Hge.
      change (2 ^ 1024) with (2 ^ 970 * 2 ^ 54) in Hge. lia. }
    assert (Hm2 : m2 = 2 ^ 53).
    { change (2 ^ 54) with (2 * 2 ^ 53) in Hcge.
      rewrite <- Hr in Hceq.
      destruct (shr_r mrs1) eqn:Er; [|lia].
      assert (E53 : m1 = 2 ^ 53 - 1) by lia.
      unfold m2, m1. rewrite round_half_up_odd; [fold m1; lia | exact Er |].
      fold m1. rewrite E53. reflexivity. }
    assert (Zdigits2 m2 = 54) by (rewrite Hm2; reflexivity).
    destruct (Z.leb_spec e3 971); [lia | reflexivity].
Qed.

Lemma Zdigits2_div_upper (a b : Z) :
  0 < a -> 0 < b ->
  Zdigits2 (a / b) <= Z.max 0 (Zdigits2 a - Zdigits2 b + 1).
Proof.
  intros Ha Hb.
  pose proof (Zdigits2_bounds a Ha) as [_ Ahi].
  pose proof (Zdigits2_bounds b Hb) as [Blo _].
  pose proof (Zdigits2_nonneg a). pose proof (Zdigits2_nonneg b).
  assert (Db : 1 <= Zdigits2 b) by (destruct b; cbn; lia).
  assert (P : 0 < 2 ^ (Zdigits2 b - 1)) by (apply Z.pow_pos_nonneg; lia).
  assert (Q0 : 0 <= a / b) by (apply Z.div_pos; lia).
  destruct (Z_le_gt_dec 0 (Zdigits2 a - Zdigits2 b + 1)) as [Hge | Hlt].
  - rewrite Z.max_r by lia. apply Zdigits2_lt_pow2; [|lia].
    split; [exact Q0|].
    apply Z.div_lt_upper_bound; [lia|].
    assert (a < 2 ^ (Zdigits2 b - 1) * 2 ^ (Zdigits2 a - Zdigits2 b + 1)).
    { rewrite <- Z.pow_add_r by lia.
      now replace (Zdigits2 b - 1 + (Zdigits2 a - Zdigits2 b + 1))
        with (Zdigits2 a) by lia. }
    assert (0 < 2 ^ (Zdigits2 a - Zdigits2 b + 1)) by (apply Z.pow_pos_nonneg; lia).
    nia.
  - assert (2 ^ Zdigits2 a <= 2 ^ (Zdigits2 b - 1)) by (apply Z.pow_le_mono_r; lia).
    rewrite Z.div_small by lia. cbn. lia.
Qed.

(** The quotient the division hands to the rounding, by the size of the
    result: small enough to stay finite, or an integer quotient of at least
    54 bits at exponent 0. *)
Lemma SFdiv_core_range (m1 m2 : Z) :
  0 < m1 -> 0 < m2 ->
  let '(q, e', _) := SFdiv_core_binary prec emax m1 0 m2 0 in
  0 <= q /\ aligned q e'
  /\ (Zdigits2 m1 - Zdigits2 m2 <= 1022 -> Zdigits2 q + e' <= 1023)
  /\ (1023 <= Zdigits2 m1 - Zdigits2 m2 ->
      e' = 0 /\ q = m1 / m2 /\ 54 <= Zdigits2 q).
Proof.
  intros H1 H2.
  pose proof (SFdiv_core_integers m1 m2 H1 H2) as Hcore.
  unfold SFdiv_core_binary in *.
  rewrite !Z.add_0_r, Z.sub_0_r, fexp_eq in *.
  set (d1 := Zdigits2 m1) in *. set (d2 := Zdigits2 m2) in *.
  set (e' := Z.min (Z.max (d1 - d2 - 53) (-1074)) 0) in *.
  set (m' := match 0 - e' with
             | 0 => m1
             | Zpos _ => Z.shiftl m1 (0 - e')
             | Zneg _ => 0
             end) in *.
  assert (Hm' : m' = Z.shiftl m1 (0 - e')).
  { unfold m'. destruct (0 - e') eqn:E; try reflexivity; lia. }
  assert (Hpos : 0 < m').
  { rewrite Hm', Z.shiftl_mul_pow2 by lia.
    apply Z.mul_pos_pos; [lia | apply Z.pow_pos_nonneg; lia]. }
  assert (Hd' : Zdigits2 m' = d1 + (0 - e')).
  { rewrite Hm'. apply Zdigits2_shiftl; lia. }
  assert (Hq : fst (Z.div_eucl m' m2) = m' / m2) by reflexivity.
  destruct (Z.div_eucl m' m2) as [q r]. cbn [fst] in Hq. subst q.
  destruct Hcore as (Q0 & Qa & _).
  split; [exact Q0|]. split; [exact Qa|]. split.
  - intros Hsmall.
    pose proof (Zdigits2_div_upper m' m2 Hpos H2) as U. fold d2 in U. lia.
  - intros Hbig.
    assert (E0 : e' = 0) by lia.
    assert (Em : m' = m1).
    { rewrite Hm', E0. reflexivity. }
    split; [exact E0|]. rewrite Em in *. split; [reflexivity|].
    pose proof (Zdigits2_div m1 m2 H1 H2) as L. fold d1 d2 in L. lia.
Qed.

End Binary64.

(** ** Facts about Python float operations *)

Module PyFloatFacts.

Import PyFloat.
Local Open Scope float_scope.

Lemma lt_not_le (a y : float) : lt a y = true -> le y a = false.
Proof.
  unfold lt, le. rewrite ltb_spec, leb_spec. apply Binary64.SFltb_not_leb.
Qed.

Lemma lt_not_eq (a b : float) :
  lt a b = true -> eq a b = false /\ eq b a = false.
Proof.
  unfold lt, eq. rewrite ltb_spec, !eqb_spec. apply Binary64.SFltb_not_eqb.
Qed.

(** IEEE subtraction is exact enough (gradual underflow) that the difference
    of two different numbers is never a zero. *)
Lemma sub_nonzero (a b : float) :
  lt a b = true \/ lt b a = true -> (a - b =? 0) = false.
Proof.
  unfold lt. rewrite !ltb_spec, eqb_spec, sub_spec. intros H.
  change (Prim2SF 0) with (S754_zero false).
  apply Binary64.SFeqb_zero_nonzero.
  apply Binary64.SFsub_nonzero; auto using Prim2SF_valid.
Qed.

(** Python's chained range test [min(a, b) < y <= max(a, b)] forces the two
    bounds to be different numbers. *)
Lemma between_min_max (a b y : float) :
  gt y (min a b) = true -> le y (max a b) = true ->
  lt a b = true \/ lt b a = true.
Proof.
  unfold gt, min, max, gt, lt. intros Hlo Hhi.
  destruct (b <? a) eqn:Hba; [now right|].
  destruct (a <? b) eqn:Hab; [now left|].
  apply lt_not_le in Hlo. congruence.
Qed.

Lemma between_ne (a b y : float) :
  gt y (min a b) = true -> le y (max a b) = true -> ne a b = true.
Proof.
  intros Hlo Hhi. unfold ne.
  destruct (between_min_max a b y Hlo Hhi) as [H|H];
    apply lt_not_eq in H; destruct H as [H1 H2];
    unfold eq in *; now (rewrite H1 || rewrite H2).
Qed.

Lemma between_divisor (a b y : float) :
  gt y (min a b) = true -> le y (max a b) = true -> (b - a =? 0) = false.
Proof.
  intros Hlo Hhi. apply sub_nonzero.
  destruct (between_min_max a b y Hlo Hhi); auto.
Qed.

(** Equal bounds leave no room for [y]. *)
Lemma eq_not_between (a b y : float) :
  eq a b = true -> gt y (min a b) && le y (max a b) = false.
Proof.
  intros He.
  destruct (gt y (min a b)) eqn:Hlo; [|reflexivity].
  destruct (le y (max a b)) eqn:Hhi; [|reflexivity].
  pose proof (between_ne a b y Hlo Hhi) as Hn.
  unfold ne in Hn. unfold eq in He. rewrite He in Hn. discriminate.
Qed.

End PyFloatFacts.

Module Examples.

Local Open Scope float_scope.

Definition square : Polygon := mkPolygon [(0, 0); (4, 0); (4, 4); (0, 4)].
Definition far_square : Polygon := mkPolygon [(10, 10); (14, 10); (14, 14); (10, 14)].

Example square_inside : contains_point square (mkPoint 2 2) = Ok true.
Proof. reflexivity. Qed.

Example square_outside : contains_point square (mkPoint 5 5) = Ok false.
Proof. reflexivity. Qed.

Example square_on_edge : contains_point square (mkPoint 4 2) = Ok true.
Proof. reflexivity. Qed.

Example empty_polygon : contains_point (mkPolygon []) (mkPoint 2 2) = Raise IndexError.
Proof. reflexivity. Qed.

End Examples.

(** ** The loop of [contains_point] walks the ring edge by edge *)

Module RayFacts.

Import PyFloat PyFloatFacts Ray RaySpec.
Local Open Scope float_scope.

(** Consecutive pairs along a path that starts at [p]. *)
Fixpoint edges_from (p : vertex) (ts : list vertex) : list (vertex * vertex) :=
  match ts with
  | [] => []
  | t :: rest => (p, t) :: edges_from t rest
  end.

Lemma edges_from_app (ts1 ts2 : list vertex) : forall (p b : vertex),
  edges_from p (ts1 ++ b :: ts2) = edges_from p (ts1 ++ [b]) ++ edges_from b ts2.
Proof.
  induction ts1 as [|t ts1 IH]; intros p b; simpl.
  - reflexivity.
  - now rewrite IH.
Qed.

Lemma edges_from_combine (rest : list vertex) : forall (p z : vertex),
  edges_from p (rest ++ [z]) = combine (p :: rest) (rest ++ [z]).
Proof.
  induction rest as [|t rest IH]; intros p z; simpl.
  - reflexivity.
  - now rewrite IH.
Qed.

Lemma ring_edges_cons (c0 : vertex) (rest : list vertex) :
  ring_edges (c0 :: rest) = edges_from c0 (rest ++ [c0]).
Proof.
  unfold ring_edges. simpl tl. simpl firstn. now rewrite edges_from_combine.
Qed.

(** An iteration that reads the vertex [(p2x, p2y)] cannot fail: inside the
    three range tests the ordinates differ, so [xinters] is assigned afresh
    and its divisor is not zero.  The flag is toggled exactly when the edge
    from the previous vertex satisfies the crossing rule. *)
Lemma loop_body_edge (coords : list vertex) (n : nat) (x y : float)
      (st : locals) (i : nat) (p2x p2y : float) :
  getitem coords (i mod n) = Ok (p2x, p2y) ->
  exists xi,
    loop_body coords n x y st i
    = Ok (mkLocals p2x p2y
                   (toggle x y (inside st) ((p1x st, p1y st), (p2x, p2y))) xi).
Proof.
  intros Hget. unfold loop_body. rewrite Hget. cbn [bind].
  unfold toggle, crossing.
  destruct (gt y (min (p1y st) p2y)) eqn:Hlo; cbn [andb bind]; eauto.
  destruct (le y (max (p1y st) p2y)) eqn:Hhi; cbn [andb bind]; eauto.
  destruct (le x (max (p1x st) p2x)) eqn:Hx; cbn [andb bind]; eauto.
  rewrite (between_ne _ _ _ Hlo Hhi).
  unfold truediv. rewrite (between_divisor _ _ _ Hlo Hhi). cbn [bind].
  destruct (eq (p1x st) p2x); cbn [orb bind inside xinters]; eauto.
Qed.

Lemma for_each_walk (coords : list vertex) (n : nat) (x y : float) :
  forall (idxs : list nat) (targets : list vertex) (st : locals),
    map (fun i => nth_error coords (i mod n)) idxs = map Some targets ->
    exists st',
      for_each (loop_body coords n x y) idxs st = Ok st'
      /\ inside st'
         = fold_left (toggle x y) (edges_from (p1x st, p1y st) targets) (inside st).
Proof.
  induction idxs as [|i idxs IH]; intros [|[p2x p2y] targets] st Hmap;
    simpl in Hmap; try discriminate.
  - exists st. split; reflexivity.
  - injection Hmap as Hi Hrest.
    destruct (loop_body_edge coords n x y st i p2x p2y) as (xi & Hbody).
    { unfold getitem. now rewrite Hi. }
    cbn [for_each]. rewrite Hbody. cbn [bind].
    match goal with
    | |- context [for_each _ idxs ?s] =>
        destruct (IH targets s Hrest) as (st' & Hrun & Hin)
    end.
    exists st'. split; [exact Hrun|]. rewrite Hin. reflexivity.
Qed.

Lemma nth_error_seq (A : Type) (l : list A) :
  map (nth_error l) (seq 0 (List.length l)) = map Some l.
Proof.
  induction l as [|a l IH]; simpl; [reflexivity|].
  rewrite <- seq_shift, map_map, <- IH. reflexivity.
Qed.

(** [range(1, n + 1)] with [i % n] visits the vertices after the first in
    order and ends on the first one. *)
Lemma ring_targets (c0 : vertex) (rest : list vertex) :
  let coords := c0 :: rest in
  map (fun i => nth_error coords (i mod List.length coords))
      (seq 1 (List.length coords))
  = map Some (rest ++ [c0]).
Proof.
  cbv zeta. cbn [List.length].
  rewrite seq_S, !map_app. cbn [map]. f_equal.
  - rewrite <- nth_error_seq, <- seq_shift, map_map.
    apply map_ext_in. intros i Hi. apply in_seq in Hi.
    rewrite Nat.mod_small by lia. reflexivity.
  - replace (1 + List.length rest)%nat with (S (List.length rest)) by lia.
    rewrite Nat.Div0.mod_same. reflexivity.
Qed.

Lemma count_parity (x y : float) (es : list (vertex * vertex)) : forall b : bool,
  fold_left (toggle x y) es b
  = xorb b (Nat.odd (List.length (filter (crossing x y) es))).
Proof.
  induction es as [|e es IH]; intros b; simpl.
  - now rewrite xorb_false_r.
  - rewrite IH. unfold toggle. destruct (crossing x y e); simpl.
    + rewrite Nat.odd_succ, <- Nat.negb_odd. now destruct b, (Nat.odd _).
    + reflexivity.
Qed.

Lemma parity_flag_odd (x y : float) (coords : list vertex) :
  parity_flag x y coords = Nat.odd (crossings x y coords).
Proof. unfold parity_flag, crossings. now rewrite count_parity. Qed.

(** On a ring with a first vertex the method returns the parity flag. *)
Lemma contains_point_flag (c0 : vertex) (rest : list vertex) (point : Point) :
  contains_point (mkPolygon (c0 :: rest)) point
  = Ok (parity_flag (lon point) (lat point) (c0 :: rest)).
Proof.
  destruct c0 as [c0x c0y].
  unfold contains_point. cbv zeta. cbn [coordinates].
  change (getitem ((c0x, c0y) :: rest) 0) with (Ok (c0x, c0y)). cbn [bind].
  destruct (for_each_walk ((c0x, c0y) :: rest) (List.length ((c0x, c0y) :: rest))
              (lon point) (lat point) _ _ (mkLocals c0x c0y false None)
              (ring_targets (c0x, c0y) rest)) as (st' & Hrun & Hin).
  unfold vertex in *. rewrite Hrun. cbn [bind]. rewrite Hin.
  unfold parity_flag. now rewrite ring_edges_cons.
Qed.

Lemma contains_point_empty (point : Point) :
  contains_point (mkPolygon []) point = Raise IndexError.
Proof. reflexivity. Qed.

End RayFacts.

(** ** Ray casting: the claims *)

Module RayClaims.

Import PyFloat PyFloatFacts Ray RaySpec RayFacts.
Local Open Scope float_scope.

Lemma rotate_nil (A : Type) (k : nat) : rotate k (@nil A) = [].
Proof. unfold rotate. now rewrite skipn_nil, firstn_nil. Qed.

Lemma rotate_split (A : Type) (k : nat) (l : list A) :
  exists l1 l2, l = l1 ++ l2 /\ rotate k l = l2 ++ l1.
Proof.
  exists (firstn k l), (skipn k l). split; [|reflexivity].
  symmetry. apply firstn_skipn.
Qed.

Lemma crossings_app_comm (x y : float) (l1 l2 : list vertex) :
  crossings x y (l1 ++ l2) = crossings x y (l2 ++ l1).
Proof.
  destruct l1 as [|a l1]; [now rewrite app_nil_r|].
  destruct l2 as [|b l2]; [now rewrite app_nil_r|].
  unfold crossings. cbn [app]. rewrite !ring_edges_cons, <- !app_assoc.
  cbn [app].
  rewrite (edges_from_app l1 (l2 ++ [a]) a b), (edges_from_app l2 (l1 ++ [b]) b a).
  rewrite !filter_app, !length_app.
  apply Nat.add_comm.
Qed.

Lemma contains_point_odd (coords : list vertex) (point : Point) :
  coords <> [] ->
  contains_point (mkPolygon coords) point
  = Ok (Nat.odd (crossings (lon point) (lat point) coords)).
Proof.
  destruct coords as [|c0 rest]; [congruence|]. intros _.
  now rewrite contains_point_flag, parity_flag_odd.
Qed.

(** C1. [contains_point] returns true exactly when an odd number of ring
    edges (the last vertex joined to the first) satisfy the crossing rule;
    the result is the value of a flag that starts false and is toggled by
    each crossing edge. *)
Theorem contains_point_parity (self : Polygon) (point : Point) :
  let x := lon point in
  let y := lat point in
  (contains_point self point = Ok true
   <-> Nat.odd (crossings x y (coordinates self)) = true)
  /\ parity_flag x y (coordinates self) = Nat.odd (crossings x y (coordinates self))
  /\ (coordinates self <> [] ->
      contains_point self point = Ok (parity_flag x y (coordinates self))).
Proof.
  destruct self as [coords]. cbn [coordinates]. cbv zeta.
  split; [|split].
  - destruct coords as [|c0 rest].
    + rewrite contains_point_empty. cbn. split; discriminate.
    + rewrite contains_point_odd by discriminate.
      split; [now intros [= ->] | now intros ->].
  - apply parity_flag_odd.
  - intros H. rewrite parity_flag_odd. now apply contains_point_odd.
Qed.

Lemma contains_point_parity_witness :
  let square := mkPolygon [(0, 0); (4, 0); (4, 4); (0, 4)] in
  coordinates square <> []
  /\ contains_point square (mkPoint 2 2)
     = Ok (parity_flag 2 2 (coordinates square)).
Proof.
  cbv zeta. split; [discriminate|].
  apply (contains_point_parity (mkPolygon [(0, 0); (4, 0); (4, 4); (0, 4)])
                               (mkPoint 2 2)).
  discriminate.
Defined.

(** C5. An edge whose two ordinates are equal satisfies no crossing test,
    whatever the point: the iteration that meets it leaves the flag (and
    [xinters]) as they were. *)
Theorem horizontal_edge_no_crossing (coords : list vertex) (n : nat) (x y : float)
        (st : locals) (i : nat) (p2x p2y : float) :
  getitem coords (i mod n) = Ok (p2x, p2y) ->
  PyFloat.eq (p1y st) p2y = true ->
  gt y (min (p1y st) p2y) && le y (max (p1y st) p2y) = false
  /\ crossing x y ((p1x st, p1y st), (p2x, p2y)) = false
  /\ loop_body coords n x y st i = Ok (mkLocals p2x p2y (inside st) (xinters st)).
Proof.
  intros Hget Heq.
  pose proof (eq_not_between (p1y st) p2y y Heq) as Hno.
  split; [exact Hno|]. split.
  - unfold crossing. now rewrite Hno.
  - unfold loop_body. rewrite Hget. cbn [bind].
    destruct (gt y (min (p1y st) p2y)); [|reflexivity].
    cbn [andb] in Hno. now rewrite Hno.
Qed.

Lemma horizontal_edge_no_crossing_witness :
  loop_body [(0, 0); (4, 0)] 2 1 0 (mkLocals 0 0 false None) 1
  = Ok (mkLocals 4 0 false None).
Proof.
  apply (horizontal_edge_no_crossing [(0, 0); (4, 0)] 2 1 0
           (mkLocals 0 0 false None) 1 4 0); reflexivity.
Defined.

(** C6. Starting the ring at another vertex does not change the answer of
    [contains_point] (nor its failure on an empty ring). *)
Theorem contains_point_rotation (coords : list vertex) (k : nat) (point : Point) :
  contains_point (mkPolygon (rotate k coords)) point
  = contains_point (mkPolygon coords) point.
Proof.
  destruct coords as [|c0 rest]; [now rewrite rotate_nil|].
  destruct (rotate_split _ k (c0 :: rest)) as (l1 & l2 & Hl & Hr).
  rewrite Hr, Hl.
  assert (Hne : l1 ++ l2 <> []) by (rewrite <- Hl; discriminate).
  assert (Hne' : l2 ++ l1 <> []).
  { intros H. apply app_eq_nil in H. destruct H as [-> ->]. now apply Hne. }
  rewrite !contains_point_odd by assumption.
  now rewrite crossings_app_comm.
Qed.

(** C10. On a ring with at least one vertex [contains_point] returns a
    boolean: inside the range test the two ordinates differ, so [xinters] is
    assigned in that very iteration and its divisor is not zero. *)
Theorem contains_point_total (self : Polygon) (point : Point) :
  coordinates self <> [] ->
  (exists b, contains_point self point = Ok b)
  /\ (forall a b y : float,
         gt y (min a b) = true -> le y (max a b) = true ->
         ne a b = true
         /\ forall num, truediv num (b - a) = Ok (num / (b - a)))
  /\ (forall a b y : float,
         PyFloat.eq a b = true -> gt y (min a b) && le y (max a b) = false)
  /\ (forall (n : nat) (x y : float) (st : locals) (i : nat),
         (i mod n < List.length (coordinates self))%nat ->
         exists st', loop_body (coordinates self) n x y st i = Ok st').
Proof.
  intros Hne. split; [|split; [|split]].
  - destruct self as [coords]. cbn [coordinates] in *.
    rewrite contains_point_odd by assumption. eauto.
  - intros a b y Hlo Hhi. split; [now apply between_ne with y|].
    intros num. unfold truediv. now rewrite (between_divisor a b y Hlo Hhi).
  - apply eq_not_between.
  - intros n x y st i Hi.
    destruct (nth_error (coordinates self) (i mod n)) as [[p2x p2y]|] eqn:Hn.
    + destruct (loop_body_edge (coordinates self) n x y st i p2x p2y) as (xi & H).
      { unfold getitem. now rewrite Hn. }
      eauto.
    + apply nth_error_None in Hn. lia.
Qed.

Lemma contains_point_total_witness :
  exists b, contains_point (mkPolygon [(0, 0); (4, 0); (4, 4); (0, 4)]) (mkPoint 2 2) = Ok b.
Proof.
  apply (contains_point_total (mkPolygon [(0, 0); (4, 0); (4, 4); (0, 4)])
                              (mkPoint 2 2)).
  discriminate.
Defined.

End RayClaims.

(** ** Zone membership: the claims *)

Module ZoneClaims.

Import RaySpec RayClaims.
Local Open Scope float_scope.

(** The polygon has a first vertex. *)
Definition ringed (p : Polygon) : Prop := coordinates p <> [].

Lemma contains_point_ok (p : Polygon) (point : Point) :
  ringed p -> exists b, contains_point p point = Ok b.
Proof.
  destruct p as [coords]. unfold ringed. cbn [coordinates]. intros H.
  rewrite contains_point_odd by assumption. eauto.
Qed.

Lemma any_polygon_ok (point : Point) (polygons : list Polygon) :
  Forall ringed polygons ->
  exists b, any_polygon point polygons = Ok b
            /\ (b = true <-> exists p, In p polygons /\ contains_point p point = Ok true).
Proof.
  induction 1 as [|p rest Hp Hrest IH]; cbn [any_polygon].
  - exists false. split; [reflexivity|]. split; [discriminate|].
    intros (p & [] & _).
  - destruct (contains_point_ok p point Hp) as ([|] & Hb); rewrite Hb; cbn [bind].
    + exists true. split; [reflexivity|]. split; [|reflexivity].
      intros _. exists p. split; [now left | exact Hb].
    + destruct IH as (b & Hrun & Hiff). exists b. split; [exact Hrun|].
      rewrite Hiff. split.
      * intros (q & Hq & Hc). exists q. split; [now right | exact Hc].
      * intros (q & [<- | Hq] & Hc); [congruence|]. now exists q.
Qed.

Lemma any_polygon_first (point : Point) (before : list Polygon) :
  forall (p : Polygon) (after : list Polygon),
    (forall q, In q before -> contains_point q point = Ok false) ->
    contains_point p point = Ok true ->
    any_polygon point (before ++ p :: after) = Ok true.
Proof.
  induction before as [|q before IH]; intros p after Hbefore Hp; cbn [app any_polygon].
  - now rewrite Hp.
  - rewrite (Hbefore q) by now left. cbn [bind].
    apply IH; [|exact Hp]. intros r Hr. apply Hbefore. now right.
Qed.

(** What [contains_point] can do: answer, on a polygon with a vertex, or
    raise [IndexError], on a polygon without. *)
Lemma contains_point_cases (p : Polygon) (point : Point) :
  (ringed p /\ exists b, contains_point p point = Ok b)
  \/ (p = mkPolygon [] /\ contains_point p point = Raise IndexError).
Proof.
  destruct p as [[|c0 rest]].
  - right. split; reflexivity.
  - left. assert (R : ringed (mkPolygon (c0 :: rest))) by discriminate.
    split; [exact R | now apply contains_point_ok].
Qed.

Lemma any_polygon_true (point : Point) (polygons : list Polygon) :
  any_polygon point polygons = Ok true <->
  exists before p after,
    polygons = before ++ p :: after
    /\ Forall ringed before /\ contains_point p point = Ok true.
Proof.
  induction polygons as [|q rest IH]; cbn [any_polygon].
  - split; [discriminate|]. intros (before & p & after & E & _).
    now destruct before.
  - destruct (contains_point_cases q point) as [(R & [|] & Hb) | (Hq & Hb)];
      rewrite Hb; cbn [bind].
    + split; [|reflexivity]. intros _. exists [], q, rest. auto.
    + rewrite IH. split.
      * intros (before & p & after & -> & F & Hp).
        exists (q :: before), p, after. auto.
      * intros (before & p & after & E & F & Hp).
        destruct before as [|q' before]; cbn [app] in E; injection E as <- ->.
        -- congruence.
        -- inversion F; subst. now exists before, p, after.
    + split; [discriminate|]. intros (before & p & after & E & F & Hp).
      destruct before as [|q' before]; cbn [app] in E; injection E as <- ->.
      * congruence.
      * inversion F as [|? ? Rq ?]; subst. now elim Rq.
Qed.

Lemma any_polygon_false (point : Point) (polygons : list Polygon) :
  any_polygon point polygons = Ok false <->
  forall p, In p polygons -> contains_point p point = Ok false.
Proof.
  induction polygons as [|q rest IH]; cbn [any_polygon].
  - split; [intros _ p [] | reflexivity].
  - destruct (contains_point q point) as [[|]|e] eqn:Hq; cbn [bind].
    + split; [discriminate|]. intros H.
      specialize (H q (or_introl eq_refl)). congruence.
    + rewrite IH. split.
      * intros H p [<- | Hp]; auto.
      * intros H p Hp. apply H. now right.
    + split; [discriminate|]. intros H.
      specialize (H q (or_introl eq_refl)). congruence.
Qed.

Lemma any_polygon_raise (point : Point) (polygons : list Polygon) (e : exn) :
  any_polygon point polygons = Raise e <->
  e = IndexError
  /\ exists before after,
       polygons = before ++ mkPolygon [] :: after
       /\ forall q, In q before -> contains_point q point = Ok false.
Proof.
  induction polygons as [|q rest IH]; cbn [any_polygon].
  - split; [discriminate|]. intros (_ & before & after & E & _).
    now destruct before.
  - destruct (contains_point_cases q point) as [(R & [|] & Hb) | (Hq & Hb)];
      rewrite Hb; cbn [bind].
    + split; [discriminate|]. intros (_ & before & after & E & H).
      destruct before as [|q' before]; cbn [app] in E; injection E as E1 E2.
      * subst q. now elim R.
      * subst q'. specialize (H q (or_introl eq_refl)). congruence.
    + rewrite IH. split.
      * intros (-> & before & after & -> & H). split; [reflexivity|].
        exists (q :: before), after. split; [reflexivity|].
        intros r [<- | Hr]; auto.
      * intros (-> & before & after & E & H). split; [reflexivity|].
        destruct before as [|q' before]; cbn [app] in E; injection E as E1 E2.
        -- subst q. now elim R.
        -- subst q' rest. exists before, after. split; [reflexivity|].
           intros r Hr. apply H. now right.
    + split.
      * intros [= <-]. split; [reflexivity|]. exists [], rest. subst q.
        split; [reflexivity | intros r []].
      * now intros (-> & _).
Qed.

(** C2, as stated, fails: a polygon without vertices ahead of the square that
    contains the point makes the call raise [IndexError] instead of answering
    true. *)
Lemma empty_polygon_first :
  let square := mkPolygon [(0, 0); (4, 0); (4, 4); (0, 4)] in
  point_in_any_polygon (Some (mkPoint 2 2)) [mkPolygon []; square]
  = Raise IndexError
  /\ contains_point square (mkPoint 2 2) = Ok true
  /\ ~ (forall point polygons,
          point_in_any_polygon (Some point) polygons = Ok true <->
          exists p, In p polygons /\ contains_point p point = Ok true).
Proof.
  cbv zeta. split; [reflexivity|]. split; [reflexivity|].
  intros H.
  specialize (H (mkPoint 2 2)
                [mkPolygon []; mkPolygon [(0, 0); (4, 0); (4, 4); (0, 4)]]).
  destruct H as [_ H].
  assert (E : point_in_any_polygon (Some (mkPoint 2 2))
                [mkPolygon []; mkPolygon [(0, 0); (4, 0); (4, 4); (0, 4)]]
              = Ok true).
  { apply H. eexists. split; [right; left; reflexivity | reflexivity]. }
  discriminate E.
Qed.

(** C2, amended. [point_in_any_polygon] answers false for a missing point,
    without an error.  For a point, the polygons are tried in order up to the
    first that contains it: the answer is true exactly when [contains_point]
    is true for a polygon of the list and every polygon before that one has a
    vertex; it is false exactly when [contains_point] is false for every
    polygon; the call raises exactly when a polygon without vertices comes
    before any polygon that contains the point, and then it is [IndexError].
    For polygons that each have a vertex the result is therefore a boolean,
    true exactly when [contains_point] is true for some polygon of the list;
    nothing after the first polygon that contains the point is looked at;
    with two polygons the answer is true for a point inside either and false
    for a point inside neither. *)
Theorem point_in_any_polygon_spec (point : Point) (polygons : list Polygon) :
  point_in_any_polygon None polygons = Ok false
  /\ (Forall ringed polygons ->
      exists b, point_in_any_polygon (Some point) polygons = Ok b
                /\ (b = true <->
                    exists p, In p polygons /\ contains_point p point = Ok true))
  /\ (forall before p after,
         polygons = before ++ p :: after ->
         (forall q, In q before -> contains_point q point = Ok false) ->
         contains_point p point = Ok true ->
         point_in_any_polygon (Some point) polygons = Ok true)
  /\ (forall p1 p2 b1 b2,
         polygons = [p1; p2] ->
         contains_point p1 point = Ok b1 -> contains_point p2 point = Ok b2 ->
         point_in_any_polygon (Some point) polygons = Ok (b1 || b2))
  /\ (point_in_any_polygon (Some point) polygons = Ok true <->
      exists before p after,
        polygons = before ++ p :: after
        /\ Forall ringed before /\ contains_point p point = Ok true)
  /\ (point_in_any_polygon (Some point) polygons = Ok false <->
      forall p, In p polygons -> contains_point p point = Ok false)
  /\ (forall e,
        point_in_any_polygon (Some point) polygons = Raise e <->
        e = IndexError
        /\ exists before after,
             polygons = before ++ mkPolygon [] :: after
             /\ forall q, In q before -> contains_point q point = Ok false).
Proof.
  split; [reflexivity|]. split; [|split; [|split; [|split; [|split]]]].
  - apply any_polygon_ok.
  - intros before p after -> Hbefore Hp. now apply any_polygon_first.
  - intros p1 p2 b1 b2 -> H1 H2. cbn [point_in_any_polygon any_polygon].
    rewrite H1. cbn [bind]. destruct b1; [reflexivity|].
    rewrite H2. cbn [bind]. now destruct b2.
  - apply any_polygon_true.
  - apply any_polygon_false.
  - intros e. apply any_polygon_raise.
Qed.

Lemma point_in_any_polygon_witness :
  let square := mkPolygon [(0, 0); (4, 0); (4, 4); (0, 4)] in
  let far_square := mkPolygon [(10, 10); (14, 10); (14, 14); (10, 14)] in
  point_in_any_polygon (Some (mkPoint 2 2)) [square; far_square] = Ok true
  /\ point_in_any_polygon (Some (mkPoint 12 12)) [square; far_square] = Ok true
  /\ point_in_any_polygon (Some (mkPoint 7 7)) [square; far_square] = Ok false
  /\ point_in_any_polygon (Some (mkPoint 12 12)) [square; far_square; mkPolygon []]
     = Ok true.
Proof.
  cbv zeta.
  pose (square := mkPolygon [(0, 0); (4, 0); (4, 4); (0, 4)]).
  pose (far_square := mkPolygon [(10, 10); (14, 10); (14, 14); (10, 14)]).
  split; [|split; [|split]].
  - apply (proj1 (proj2 (proj2 (proj2
      (point_in_any_polygon_spec (mkPoint 2 2) [square; far_square]))))
      square far_square true false); reflexivity.
  - apply (proj1 (proj2 (proj2 (proj2
      (point_in_any_polygon_spec (mkPoint 12 12) [square; far_square]))))
      square far_square false true); reflexivity.
  - apply (proj1 (proj2 (proj2 (proj2
      (point_in_any_polygon_spec (mkPoint 7 7) [square; far_square]))))
      square far_square false false); reflexivity.
  - apply (proj1 (proj2 (proj2
      (point_in_any_polygon_spec (mkPoint 12 12)
         [square; far_square; mkPolygon []])))
      [square] far_square [mkPolygon []]).
    + reflexivity.
    + intros q [<- | []]. reflexivity.
    + reflexivity.
Defined.

End ZoneClaims.

(** ** Strings: facts about [split] *)

Module PyStrFacts.

Import PyStr.
Local Open Scope char_scope.

Lemma chars_app (s1 s2 : string) :
  chars (s1 ++ s2)%string = chars s1 ++ chars s2.
Proof.
  unfold chars. induction s1 as [|c s1 IH]; cbn; [reflexivity|]. now rewrite IH.
Qed.

Lemma str_chars (s : string) : str (chars s) = s.
Proof. apply string_of_list_ascii_of_string. Qed.

(** No character of [l] is the separator. *)
Definition free_of (sep : ascii) (l : list ascii) : bool :=
  forallb (fun c => negb (Ascii.eqb c sep)) l.

Lemma split_on_free (sep : ascii) (l : list ascii) :
  free_of sep l = true -> split_on sep l = [l].
Proof.
  induction l as [|c l IH]; cbn; [reflexivity|].
  intros H. apply andb_true_iff in H. destruct H as [Hc Hl].
  apply negb_true_iff in Hc. rewrite Hc, (IH Hl). reflexivity.
Qed.

Lemma split_on_cut (sep : ascii) (l1 l2 : list ascii) :
  free_of sep l1 = true ->
  split_on sep (l1 ++ sep :: l2) = l1 :: split_on sep l2.
Proof.
  induction l1 as [|c l1 IH]; cbn.
  - intros _. now rewrite Ascii.eqb_refl.
  - intros H. apply andb_true_iff in H. destruct H as [Hc Hl].
    apply negb_true_iff in Hc. rewrite Hc, (IH Hl). reflexivity.
Qed.

Lemma split_sep_pair (sep : ascii) (s1 s2 : string) :
  free_of sep (chars s1) = true -> free_of sep (chars s2) = true ->
  split_sep sep (s1 ++ String sep s2)%string = [s1; s2].
Proof.
  intros H1 H2. unfold split_sep. rewrite chars_app.
  change (chars (String sep s2)) with (sep :: chars s2).
  rewrite split_on_cut, split_on_free by assumption.
  cbn [map]. now rewrite !str_chars.
Qed.

End PyStrFacts.

(** ** The client parser: the claims *)

Module ClientClaims.

Import PyStr PyStrFacts PyFloatOfStr Client.
Local Open Scope string_scope.

(** The value returned for a cell. *)
Definition parsed (coord_string : option string) : option Point :=
  fst (parse_client_coordinates coord_string).

(** A string without a comma. *)
Definition no_comma (s : string) : Prop := free_of "," (chars s) = true.

Lemma unpack_pair_inr (tokens : list string) (p : Point) :
  unpack_pair tokens = inr p <->
  exists t0 t1, tokens = [t0; t1]
                /\ py_float t0 = Some (lat p) /\ py_float t1 = Some (lon p).
Proof.
  unfold unpack_pair, to_float. split.
  - destruct tokens as [|t0 [|t1 [|t2 rest]]]; try discriminate;
      destruct (py_float t0) as [a|] eqn:H0; try discriminate;
      destruct (py_float t1) as [b|] eqn:H1; try discriminate.
    + intros [= <-]. exists t0, t1. auto.
    + destruct (py_float t2); discriminate.
  - intros (t0 & t1 & -> & H0 & H1). rewrite H0, H1. now destruct p.
Qed.

Lemma parsed_some (s : string) (p : Point) :
  parsed (Some s) = Some p <-> unpack_pair (split_sep "," s) = inr p.
Proof.
  unfold parsed, parse_client_coordinates.
  destruct (unpack_pair (split_sep "," s)) as [e|q]; cbn [fst];
    split; try discriminate; now intros [= ->].
Qed.

Lemma parsed_none (s : string) :
  (forall p, unpack_pair (split_sep "," s) <> inr p) -> parsed (Some s) = None.
Proof.
  intros H. destruct (parsed (Some s)) as [p|] eqn:E; [|reflexivity].
  apply parsed_some in E. now apply H in E.
Qed.

(** C3. A string of two numerals around a single comma is read as
    latitude, longitude, and the point is built longitude first: the first
    number becomes [lat], the second [lon]; ["12.5,34.2"] gives the point with
    [lon = 34.2] and [lat = 12.5]. *)
Theorem parse_client_coordinates_swap (s1 s2 : string) (a b : float) :
  no_comma s1 -> no_comma s2 ->
  py_float s1 = Some a -> py_float s2 = Some b ->
  parse_client_coordinates (Some (s1 ++ "," ++ s2))
  = (Some {| lon := b; lat := a |}, [])
  /\ parse_client_coordinates (Some "12.5,34.2")
     = (Some {| lon := 0x1.119999999999ap+5; lat := 12.5 |}, []).
Proof.
  intros N1 N2 H1 H2. split; [|reflexivity].
  unfold parse_client_coordinates.
  change (s1 ++ "," ++ s2) with (s1 ++ String ","%char s2).
  rewrite split_sep_pair by assumption.
  unfold unpack_pair, to_float. now rewrite H1, H2.
Qed.

Lemma parse_client_coordinates_swap_witness :
  py_float "12.5" = Some 12.5%float
  /\ py_float "34.2" = Some 0x1.119999999999ap+5%float
  /\ parse_client_coordinates (Some ("12.5" ++ "," ++ "34.2"))
     = (Some {| lon := 0x1.119999999999ap+5; lat := 12.5 |}, []).
Proof.
  split; [reflexivity|]. split; [reflexivity|].
  apply (parse_client_coordinates_swap "12.5" "34.2" 12.5 0x1.119999999999ap+5);
    reflexivity.
Defined.

(** What the body rejects: a missing value, the empty string, any number of
    comma-separated tokens other than two, and any token that is not a number
    give [None]; a point is returned exactly for two numeric tokens. *)
Lemma parsed_failures (coord_string : option string) :
  parsed None = None
  /\ parsed (Some "") = None
  /\ parsed (Some "abc") = None
  /\ (forall s, coord_string = Some s ->
        List.length (split_sep "," s) <> 2 -> parsed coord_string = None)
  /\ (forall s t, coord_string = Some s ->
        In t (split_sep "," s) -> py_float t = None -> parsed coord_string = None)
  /\ (forall s p, coord_string = Some s ->
        (parsed coord_string = Some p <->
         exists t0 t1, split_sep "," s = [t0; t1]
                       /\ py_float t0 = Some (lat p) /\ py_float t1 = Some (lon p))).
Proof.
  split; [|split; [|split; [|split; [|split]]]]; try reflexivity.
  - intros s -> Hlen. apply parsed_none. intros p Hp.
    apply unpack_pair_inr in Hp. destruct Hp as (t0 & t1 & E & _).
    rewrite E in Hlen. now apply Hlen.
  - intros s t -> Hin Ht. apply parsed_none. intros p Hp.
    apply unpack_pair_inr in Hp. destruct Hp as (t0 & t1 & E & H0 & H1).
    rewrite E in Hin. destruct Hin as [<- | [<- | []]]; congruence.
  - intros s p ->. rewrite parsed_some. apply unpack_pair_inr.
Qed.

(** The function as written against the function whose [print] succeeds: the
    same result, except that a failure on a string with a character the
    standard output cannot encode raises. *)
Lemma stdout_parse (enc : Stdout.encoding) (coord_string : option string) :
  Stdout.parse_client_coordinates enc coord_string
  = match coord_string with
    | None => Ok (parse_client_coordinates coord_string)
    | Some s =>
        match parsed coord_string with
        | Some _ => Ok (parse_client_coordinates coord_string)
        | None =>
            if forallb (Stdout.encodable enc) (chars s)
            then Ok (parse_client_coordinates coord_string)
            else Raise UnicodeEncodeError
        end
    end.
Proof.
  destruct coord_string as [s|]; [|reflexivity].
  unfold parsed, Stdout.parse_client_coordinates, parse_client_coordinates,
    Stdout.print_error.
  destruct (unpack_pair (split_sep "," s)) as [e|p]; cbn [fst]; [|reflexivity].
  now destruct (forallb (Stdout.encodable enc) (chars s)).
Qed.

Lemma encodable_all (l : list ascii) :
  forallb (Stdout.encodable (fun _ => true)) l = true.
Proof.
  apply forallb_forall. intros c _. unfold Stdout.encodable.
  apply orb_true_r.
Qed.

(** [Client.parse_client_coordinates] is the function on a standard output
    whose encoding has every character. *)
Lemma stdout_parse_all (coord_string : option string) :
  Stdout.parse_client_coordinates (fun _ => true) coord_string
  = Ok (parse_client_coordinates coord_string).
Proof.
  rewrite stdout_parse. destruct coord_string as [s|]; [|reflexivity].
  rewrite encodable_all. now destruct (parsed (Some s)).
Qed.

(** C4, a defect of the code. The handler catches every error of the body,
    but its own [print] is not guarded: [parse_client_coordinates] raises
    [UnicodeEncodeError] to its caller exactly when the value is a string that
    is not a coordinate pair and holds a character that the standard output
    cannot encode, and it raises nothing else.  When every character can be
    encoded the result is a point or [None], the one computed with a [print]
    that succeeds.  On an ASCII standard output the one-character string of
    code 233 raises. *)
Theorem parse_client_coordinates_raises (enc : Stdout.encoding)
        (coord_string : option string) :
  (forall e,
      Stdout.parse_client_coordinates enc coord_string = Raise e <->
      e = UnicodeEncodeError
      /\ exists s, coord_string = Some s /\ parsed (Some s) = None
                   /\ forallb (Stdout.encodable enc) (chars s) = false)
  /\ ((forall s, coord_string = Some s ->
                 forallb (Stdout.encodable enc) (chars s) = true) ->
      Stdout.parse_client_coordinates enc coord_string
      = Ok (parse_client_coordinates coord_string)
      /\ ((exists p, parse_client_coordinates coord_string = (Some p, []))
          \/ (exists printed, parse_client_coordinates coord_string = (None, printed))))
  /\ parsed (Some (String "233"%char "")) = None
  /\ Stdout.parse_client_coordinates (fun _ => false) (Some (String "233"%char ""))
     = Raise UnicodeEncodeError.
Proof.
  split; [|split; [|split; reflexivity]].
  - intros e. rewrite stdout_parse.
    destruct coord_string as [s|].
    + destruct (parsed (Some s)) as [p|] eqn:P.
      * split; [discriminate|]. intros (_ & s' & [= <-] & P' & _). congruence.
      * destruct (forallb (Stdout.encodable enc) (chars s)) eqn:F.
        -- split; [discriminate|]. intros (_ & s' & [= <-] & _ & F'). congruence.
        -- split.
           ++ intros [= <-]. split; [reflexivity|]. now exists s.
           ++ now intros (-> & _).
    + split; [discriminate|]. intros (_ & s' & E & _). discriminate E.
  - intros H. split.
    + rewrite stdout_parse. destruct coord_string as [s|]; [|reflexivity].
      rewrite (H s eq_refl). now destruct (parsed (Some s)).
    + destruct coord_string as [s|]; cbn [parse_client_coordinates]; [|eauto].
      destruct (unpack_pair (split_sep "," s)); eauto.
Qed.

Lemma parse_client_coordinates_raises_witness :
  Stdout.parse_client_coordinates (fun _ => false) (Some "abc")
  = Ok (parse_client_coordinates (Some "abc"))
  /\ Stdout.parse_client_coordinates (fun _ => false) (Some "")
     = Ok (parse_client_coordinates (Some "")).
Proof.
  split.
  - apply (proj1 (proj2 (parse_client_coordinates_raises (fun _ => false) (Some "abc")))).
    intros s [= <-]. reflexivity.
  - apply (proj1 (proj2 (parse_client_coordinates_raises (fun _ => false) (Some "")))).
    intros s [= <-]. reflexivity.
Defined.

End ClientClaims.

(** ** KML boundaries: the claims *)

Module KmlClaims.

Import PyStr PyFloatOfStr Kml.
Local Open Scope string_scope.

Lemma filter_map_app (A B : Type) (f : A -> option B) (l1 l2 : list A) :
  filter_map f (l1 ++ l2) = (filter_map f l1 ++ filter_map f l2)%list.
Proof.
  induction l1 as [|a l1 IH]; cbn; [reflexivity|].
  destruct (f a); cbn; now rewrite IH.
Qed.

Lemma polygon_of_cases (e : element) :
  polygon_of e = []
  \/ exists ob t,
       find_outer_coordinates e = Some ob /\ text ob = Some t /\ t <> ""
       /\ (3 <= List.length (parse_kml_coordinates t))%nat
       /\ polygon_of e = [mkPolygon (parse_kml_coordinates t)].
Proof.
  unfold polygon_of.
  destruct (find_outer_coordinates e) as [ob|] eqn:Hf; [|now left].
  destruct (text ob) as [t|] eqn:Ht; [|now left].
  destruct (String.eqb_spec t ""); [now left|].
  destruct (Nat.leb_spec 3 (List.length (parse_kml_coordinates t))); [|now left].
  right. exists ob, t. repeat split; auto.
Qed.

(** A small document: two placemarks, the first ring with two valid pairs
    (and one bad token), the second with three. *)
Definition placemark (coords : string) : element :=
  Element (ns ++ "Placemark") None
    [Element (ns ++ "Polygon") None
       [Element (ns ++ "outerBoundaryIs") None
          [Element (ns ++ "LinearRing") None
             [Element (ns ++ "coordinates") (Some coords) []]]]].

Definition document (rings : list string) : element :=
  Element (ns ++ "kml") None [Element (ns ++ "Document") None (map placemark rings)].

Example two_pairs_dropped :
  load_kml_polygons (document ["0,0,0 4,0,0 x,4,0"; "10,10 14,10 14,14 10,14"])
  = [mkPolygon [(10, 10); (14, 10); (14, 14); (10, 14)]%float].
Proof. reflexivity. Qed.

Example three_pairs_kept :
  List.length (load_kml_polygons
                 (document ["0,0,0 4,0,0 4,4,0"; "10,10 14,10 14,14 10,14"])) = 2%nat.
Proof. reflexivity. Qed.

(** C7. Every polygon returned by [load_kml_polygons] has at least three
    vertices and is the parse of the text of the outer ring of a [Polygon]
    element; a ring with fewer than three valid pairs gives no polygon; a
    token with fewer than two fields or a non-numeric field is skipped alone,
    the rest of the ring being kept. *)
Theorem load_kml_polygons_rings (root : element) :
  (forall p, In p (load_kml_polygons root) ->
     (3 <= List.length (coordinates p))%nat
     /\ exists e ob t,
          In e (findall_polygons root)
          /\ find_outer_coordinates e = Some ob /\ text ob = Some t
          /\ coordinates p = parse_kml_coordinates t)
  /\ (forall e ob t,
        find_outer_coordinates e = Some ob -> text ob = Some t ->
        (List.length (parse_kml_coordinates t) < 3)%nat -> polygon_of e = [])
  /\ (forall t, (List.length (split_sep "," t) < 2)%nat -> parse_coord_set t = None)
  /\ (forall t p0 p1 rest, split_sep "," t = p0 :: p1 :: rest ->
        py_float p0 = None \/ py_float p1 = None -> parse_coord_set t = None)
  /\ (forall before t after, parse_coord_set t = None ->
        filter_map parse_coord_set (before ++ t :: after)
        = filter_map parse_coord_set (before ++ after)).
Proof.
  split; [|split; [|split; [|split]]].
  - intros p Hp. unfold load_kml_polygons in Hp.
    apply in_flat_map in Hp. destruct Hp as (e & He & Hin).
    destruct (polygon_of_cases e) as [E | (ob & t & Hf & Ht & _ & Hlen & E)];
      rewrite E in Hin; [destruct Hin|].
    destruct Hin as [<- | []]. cbn [coordinates]. split; [exact Hlen|].
    exists e, ob, t. auto.
  - intros e ob t Hf Ht Hlen. unfold polygon_of. rewrite Hf, Ht.
    destruct (t =? ""); [reflexivity|].
    destruct (Nat.leb_spec 3 (List.length (parse_kml_coordinates t)));
      [lia | reflexivity].
  - intros t Hlen. unfold parse_coord_set.
    destruct (split_sep "," t) as [|p0 [|p1 rest]]; cbn in Hlen;
      [reflexivity | reflexivity | lia].
  - intros t p0 p1 rest E H. unfold parse_coord_set. rewrite E.
    destruct H as [H | H]; rewrite H; [reflexivity|].
    now destruct (py_float p0).
  - intros before t after H. rewrite !filter_map_app. cbn [filter_map].
    now rewrite H.
Qed.

Lemma load_kml_polygons_rings_witness :
  (3 <= List.length (coordinates (mkPolygon [(10, 10); (14, 10); (14, 14); (10, 14)]%float)))%nat
  /\ parse_coord_set "x,4,0" = None.
Proof.
  split.
  - apply (proj1 (load_kml_polygons_rings
                    (document ["0,0,0 4,0,0 x,4,0"; "10,10 14,10 14,14 10,14"]))).
    left. reflexivity.
  - apply (proj1 (proj2 (proj2 (proj2 (load_kml_polygons_rings (document [])))))
             "x,4,0" "x" "4" ["0"]); [reflexivity | left; reflexivity].
Defined.

End KmlClaims.

(** ** The pipeline: facts and claims *)

Module FrameClaims.

Import Kml Client Frame.
Local Open Scope string_scope.
Local Open Scope list_scope.

Lemma load_kml_polygons_ringed (root : element) :
  Forall ZoneClaims.ringed (load_kml_polygons root).
Proof.
  apply Forall_forall. intros p Hp. unfold load_kml_polygons in Hp.
  apply in_flat_map in Hp. destruct Hp as (e & _ & Hin).
  destruct (KmlClaims.polygon_of_cases e) as [E | (ob & t & _ & _ & _ & Hlen & E)];
    rewrite E in Hin; [destruct Hin|].
  destruct Hin as [<- | []]. unfold ZoneClaims.ringed. cbn [coordinates].
  destruct (parse_kml_coordinates t); [cbn in Hlen; lia | discriminate].
Qed.

Lemma getitem_col_read (table : list (string * list (option string))) (label : string) :
  In label (map fst table) ->
  exists col, In (label, col) table
              /\ getitem_col (read_csv table) label = Ok (map Raw col).
Proof.
  induction table as [|[l col] table IH]; cbn; [intros []|].
  destruct (String.eqb_spec l label) as [-> | Hne].
  - intros _. exists col. auto.
  - intros [H | H]; [congruence|].
    destruct (IH H) as (c & Hin & Hget). exists c. auto.
Qed.





Lemma labels_read (table : list (string * list (option string))) :
  labels (read_csv table) = map fst table.
Proof. unfold labels, read_csv. rewrite map_map. reflexivity. Qed.

Lemma height_read (n : nat) (table : list (string * list (option string))) :
  Forall (fun c => List.length (snd c) = n) table -> height n (read_csv table).
Proof.
  unfold height, read_csv. intros H. apply Forall_map.
  eapply Forall_impl; [|exact H]. intros [l col]. cbn. now rewrite length_map.
Qed.

(** With polygons that all have a vertex the zone test never raises. *)
Lemma apply_zone (polygons : list Polygon) :
  Forall ZoneClaims.ringed polygons ->
  forall gps : list (option string),
  exists flags,
    apply (zone_cell polygons) (map parse_cell (map Raw gps)) = Ok (map Flag flags)
    /\ Forall2 (fun s b =>
                  point_in_any_polygon (ClientClaims.parsed s) polygons = Ok b)
               gps flags.
Proof.
  intros Hp. induction gps as [|s gps IH]; cbn [map apply].
  - exists []. split; [reflexivity | constructor].
  - destruct IH as (flags & Hrun & Hall).
    assert (Hone : exists b,
               point_in_any_polygon (ClientClaims.parsed s) polygons = Ok b).
    { destruct (ClientClaims.parsed s) as [p|]; cbn; [|eauto].
      destruct (ZoneClaims.any_polygon_ok p polygons Hp) as (b & H & _). eauto. }
    destruct Hone as (b & Hb).
    exists (b :: flags). split; [|now constructor].
    cbn [parse_cell zone_cell]. fold (ClientClaims.parsed s).
    rewrite Hb. cbn [bind]. rewrite Hrun. reflexivity.
Qed.



Definition table_with_flag : list (string * list (option string)) :=
  [("Codigo", [Some "7"]); ("Inside_Zone", [Some "old"]); ("Punto gps", [Some "12.5,34.2"])].




End FrameClaims.

(** ** What [float(str)] can return *)

Module PyFloatOfStrFacts.

Import PyStr PyFloatOfStr Binary64.
Local Open Scope Z_scope.

Lemma SFcompare_refl (x : spec_float) : SFnot_nan x -> SFcompare x x = Some Eq.
Proof.
  destruct x as [s|s| |s m e]; cbn; try tauto; intros _.
  - now destruct s.
  - rewrite Z.compare_refl.
    change (Pos.compare_cont Eq m m) with (Pos.compare m m).
    rewrite Pos.compare_refl. now destruct s.
Qed.

(** [math.isnan], [math.isinf] and [math.isfinite] read on the specification
    of the number. *)
Lemma is_nan_spec (f : float) :
  is_nan f = match Prim2SF f with S754_nan => true | _ => false end.
Proof.
  unfold is_nan. rewrite eqb_spec. unfold SFeqb.
  destruct (Prim2SF f) as [s|s| |s m e] eqn:E; try reflexivity;
    now rewrite SFcompare_refl.
Qed.

Lemma is_infinity_spec (f : float) :
  is_infinity f = match Prim2SF f with S754_infinity _ => true | _ => false end.
Proof.
  unfold is_infinity. rewrite eqb_spec, abs_spec.
  change (Prim2SF infinity) with (S754_infinity false).
  destruct (Prim2SF f) as [s|s| |s m e]; reflexivity.
Qed.

Lemma is_finite_spec (f : float) :
  is_finite f = match Prim2SF f with
                | S754_zero _ | S754_finite _ _ _ => true
                | _ => false
                end.
Proof.
  unfold is_finite. rewrite is_nan_spec, is_infinity_spec.
  now destruct (Prim2SF f).
Qed.

Lemma digits_value_nonneg (ds : list ascii) : 0 <= digits_value ds.
Proof.
  unfold digits_value.
  assert (H : forall acc, 0 <= acc ->
                0 <= fold_left (fun acc d => acc * 10 + digit_value d) ds acc).
  { induction ds as [|d ds IH]; intros acc Hacc; cbn [fold_left]; [exact Hacc|].
    apply IH. unfold digit_value. lia. }
  apply H. lia.
Qed.

Lemma parse_decimal_nonneg (l : list ascii) (m e : Z) :
  parse_decimal l = Some (m, e) -> 0 <= m.
Proof.
  unfold parse_decimal.
  destruct (span is_digit l) as [int_part rest1].
  destruct (match rest1 with
            | "."%char :: rest => span is_digit rest
            | _ => ([], rest1)
            end) as [frac_part rest2].
  destruct (int_part ++ frac_part)%list as [|d ds] eqn:E; [discriminate|].
  destruct (parse_exponent rest2); [|discriminate].
  intros [= <- _]. apply digits_value_nonneg.
Qed.

Lemma scan_decimal_nonneg (s : string) (neg : bool) (m e : Z) :
  scan s = Some (Decimal neg m e) -> 0 <= m.
Proof.
  unfold scan.
  destruct (underscores_ok None _); [|discriminate].
  destruct (parse_sign _) as [sg rest].
  destruct (literal "inf" rest || literal "infinity" rest); [discriminate|].
  destruct (literal "nan" rest); [discriminate|].
  destruct (parse_decimal rest) as [[m' e']|] eqn:E; [|discriminate].
  intros [= _ <- _]. now apply parse_decimal_nonneg in E.
Qed.

(** Rounding a decimal gives a number of the format, so that the primitive
    float denotes exactly it. *)
Lemma round_decimal_valid (neg : bool) (m e : Z) :
  0 <= m -> valid_binary (round_decimal neg m e) = true.
Proof.
  intros Hm. unfold round_decimal.
  destruct m as [|q|q]; [reflexivity | | lia].
  destruct (Z.leb_spec 0 e) as [He | He].
  - apply binary_normalize_valid.
  - pose proof (SFdiv_core_integers (Zpos q) (10 ^ (- e))) as H.
    destruct (SFdiv_core_binary prec emax (Zpos q) 0 (10 ^ (- e)) 0) as [[qt e'] l].
    destruct H as (Q0 & Qa & Qd); [lia | apply Z.pow_pos_nonneg; lia |].
    apply (binary_round_aux_valid neg qt e' l Q0 Qa).
Qed.

Lemma float_value_decimal (neg : bool) (m e : Z) :
  0 <= m -> Prim2SF (float_value (Decimal neg m e)) = round_decimal neg m e.
Proof.
  intros Hm. cbn [float_value]. apply Prim2SF_SF2Prim.
  now apply round_decimal_valid.
Qed.

Lemma round_decimal_not_nan (neg : bool) (m e : Z) :
  0 <= m -> SFnot_nan (round_decimal neg m e).
Proof.
  intros Hm. unfold round_decimal.
  destruct m as [|q|q]; [exact I | | lia].
  destruct (Z.leb_spec 0 e).
  - apply binary_normalize_not_nan.
  - pose proof (SFdiv_core_integers (Zpos q) (10 ^ (- e))) as Hq.
    destruct (SFdiv_core_binary prec emax (Zpos q) 0 (10 ^ (- e)) 0) as [[qt e'] l].
    destruct Hq as (Q0 & _); [lia | apply Z.pow_pos_nonneg; lia |].
    apply (binary_round_aux_not_nan neg qt e' l Q0).
Qed.

(** The decimal [m * 10 ^ e] is below the point from which binary64 rounds
    to an infinity, [2 ^ 1024 - 2 ^ 970]; written without a quotient. *)
Definition within_range (m e : Z) : Prop :=
  m * 10 ^ Z.max e 0 < overflow_threshold * 10 ^ Z.max (- e) 0.

Lemma binary_round_big (s : bool) (q : positive) :
  54 <= Zdigits2 (Zpos q) ->
  binary_round prec emax s q 0 = binary_round_aux prec emax s (Zpos q) 0 loc_Exact.
Proof.
  intros H. unfold binary_round.
  change (Zpos (digits2_pos q)) with (Zdigits2 (Zpos q)).
  rewrite Z.add_0_r, fexp_eq. unfold shl_align.
  destruct (Z.max (Zdigits2 (Zpos q) - 53) (-1074) - 0) eqn:E; try reflexivity; lia.
Qed.

(** Rounding a decimal: finite below the threshold, the infinity of its sign
    from the threshold on. *)
Lemma round_decimal_range (neg : bool) (m e : Z) :
  0 <= m ->
  (within_range m e -> SFfinite (round_decimal neg m e))
  /\ (~ within_range m e -> round_decimal neg m e = S754_infinity neg).
Proof.
  intros Hm. unfold round_decimal, within_range.
  assert (T0 : 0 < overflow_threshold) by reflexivity.
  destruct m as [|q|q]; [| | lia].
  - split; [intros _; exact I|]. intros H. exfalso. apply H.
    rewrite Z.mul_0_l. apply Z.mul_pos_pos; [exact T0 | apply Z.pow_pos_nonneg; lia].
  - destruct (Z.leb_spec 0 e) as [He | He].
    + rewrite Z.max_l, (Z.max_r (- e) 0), Z.pow_0_r, Z.mul_1_r by lia.
      assert (P : 0 < Zpos q * 10 ^ e)
        by (apply Z.mul_pos_pos; [lia | apply Z.pow_pos_nonneg; lia]).
      destruct (Zpos q * 10 ^ e) as [|M|M] eqn:EM; try lia.
      assert (N : binary_normalize prec emax (cond_Zopp neg (Zpos M)) 0 false
                  = binary_round prec emax neg M 0) by now destruct neg.
      destruct (Z_le_gt_dec 54 (Zdigits2 (Zpos M))) as [Hbig | Hsmall].
      * rewrite N, binary_round_big by exact Hbig.
        destruct (binary_round_aux_range neg (Zpos M) loc_Exact) as [F I]; [lia | exact Hbig |].
        split; [exact F|]. intros H. apply I. lia.
      * pose proof (Zdigits2_bounds (Zpos M) P) as [_ Hi].
        assert (Zpos M < overflow_threshold).
        { eapply Z.lt_trans; [exact Hi|].
          eapply Z.le_lt_trans; [apply (Z.pow_le_mono_r 2 _ 53); lia | reflexivity]. }
        split; [|intros H'; lia]. intros _.
        destruct (binary_normalize_valid (cond_Zopp neg (Zpos M)) 0 false) as [_ F].
        apply F. destruct neg; cbn [cond_Zopp Z.opp Zdigits2] in *; lia.
    + rewrite Z.max_r, (Z.max_l (- e) 0), Z.pow_0_r, Z.mul_1_r by lia.
      assert (D0 : 0 < 10 ^ (- e)) by (apply Z.pow_pos_nonneg; lia).
      pose proof (SFdiv_core_range (Zpos q) (10 ^ (- e))) as H.
      destruct (SFdiv_core_binary prec emax (Zpos q) 0 (10 ^ (- e)) 0) as [[qt e'] l].
      destruct H as (Q0 & Qa & Qs & Qb); [lia | exact D0 |].
      pose proof (Zdigits2_bounds (Zpos q) eq_refl) as [_ Mhi].
      pose proof (Zdigits2_bounds (10 ^ (- e)) D0) as [Dlo _].
      set (d1 := Zdigits2 (Zpos q)) in *. set (d2 := Zdigits2 (10 ^ (- e))) in *.
      assert (Hd2 : 1 <= d2) by (unfold d2; destruct (10 ^ (- e)); cbn; lia).
      assert (Hd1 : 1 <= d1) by (unfold d1; cbn; lia).
      destruct (Z_le_gt_dec (d1 - d2) 1022) as [Hsmall | Hbig].
      * assert (In : Zpos q < overflow_threshold * 10 ^ (- e)).
        { assert (A : 2 ^ d1 <= 2 ^ 1023 * 2 ^ (d2 - 1)).
          { rewrite <- Z.pow_add_r by lia. apply Z.pow_le_mono_r; lia. }
          assert (B : 2 ^ 1023 < overflow_threshold) by reflexivity.
          assert (C : 0 < 2 ^ 1023) by reflexivity.
          assert (E2 : 0 < 2 ^ (d2 - 1)) by (apply Z.pow_pos_nonneg; lia).
          nia. }
        split; [|intros H'; lia]. intros _.
        destruct (binary_round_aux_valid neg qt e' l Q0 Qa) as [_ F].
        apply F. apply Qs. exact Hsmall.
      * destruct Qb as (-> & -> & Q54); [lia|].
        destruct (binary_round_aux_range neg (Zpos q / 10 ^ (- e)) l Q0 Q54) as [F I].
        split.
        -- intros H. apply F. apply Z.div_lt_upper_bound; lia.
        -- intros H. apply I. apply Z.div_le_lower_bound; lia.
Qed.

(** [float] of a decimal numeral is finite exactly below the threshold and
    an infinity exactly from it on. *)
Lemma float_value_range (neg : bool) (m e : Z) :
  0 <= m ->
  (is_finite (float_value (Decimal neg m e)) = true <-> within_range m e)
  /\ (is_infinity (float_value (Decimal neg m e)) = true <-> ~ within_range m e).
Proof.
  intros Hm.
  pose proof (float_value_decimal neg m e Hm) as E.
  destruct (round_decimal_range neg m e Hm) as [F I].
  rewrite is_finite_spec, is_infinity_spec, E.
  destruct (Z_lt_dec (m * 10 ^ Z.max e 0) (overflow_threshold * 10 ^ Z.max (- e) 0))
    as [Hin | Hout]; fold (within_range m e) in *.
  - specialize (F Hin).
    destruct (round_decimal neg m e); cbn in F; try contradiction;
      (split; split; intros; try reflexivity; try assumption;
       try discriminate; try contradiction).
  - rewrite (I Hout). split; split; intros; try reflexivity; try assumption;
      try discriminate; try contradiction.
Qed.

(** The value of a numeral: a NaN exactly for [nan]; an infinity exactly for
    [inf]/[infinity] and for a decimal from the threshold on; a finite number
    exactly for a decimal below the threshold. *)
Lemma float_value_class (n : numeral) :
  match n with Decimal _ m _ => 0 <= m | _ => True end ->
  (is_nan (float_value n) = true <-> n = NotANumber)
  /\ (is_infinity (float_value n) = true <->
      (exists neg, n = Infinity neg)
      \/ (exists neg m e, n = Decimal neg m e /\ ~ within_range m e))
  /\ (is_finite (float_value n) = true <->
      exists neg m e, n = Decimal neg m e /\ within_range m e).
Proof.
  intros Hn. destruct n as [neg| |neg m e].
  - split; [|split].
    + destruct neg; cbn; split; discriminate.
    + split; [intros _; left; now exists neg | intros _; now destruct neg].
    + split; [destruct neg; discriminate | intros (? & ? & ? & H & _); discriminate H].
  - split; [|split].
    + split; reflexivity.
    + split; [discriminate|].
      intros [(? & H) | (? & ? & ? & H & _)]; discriminate H.
    + split; [discriminate | intros (? & ? & ? & H & _); discriminate H].
  - destruct (float_value_range neg m e Hn) as [F I].
    split; [|split].
    + rewrite is_nan_spec, float_value_decimal by exact Hn.
      split; [|discriminate].
      pose proof (round_decimal_not_nan neg m e Hn) as N.
      destruct (round_decimal neg m e); try discriminate. contradiction.
    + rewrite I. split.
      * intros H. right. now exists neg, m, e.
      * intros [(? & H) | (? & ? & ? & H & Hout)]; [discriminate H|].
        now injection H as <- <- <-.
    + rewrite F. split.
      * intros H. now exists neg, m, e.
      * intros (? & ? & ? & H & Hin). now injection H as <- <- <-.
Qed.

End PyFloatOfStrFacts.

(** ** The components of a parsed point *)

Module PointClaims.

Import PyStr PyFloatOfStr PyFloatOfStrFacts Client ClientClaims.
Local Open Scope string_scope.

(** The float [f] is what the token [t] spells, with the class that goes
    with the spelling. *)
Definition spelled (t : string) (f : float) : Prop :=
  exists n,
    scan t = Some n /\ f = float_value n
    /\ (is_nan f = true <-> n = NotANumber)
    /\ (is_infinity f = true <->
        (exists neg, n = Infinity neg)
        \/ (exists neg m e, n = Decimal neg m e /\ ~ within_range m e))
    /\ (is_finite f = true <->
        exists neg m e, n = Decimal neg m e /\ within_range m e).

Lemma py_float_spelled (t : string) (f : float) :
  py_float t = Some f -> spelled t f.
Proof.
  unfold py_float. destruct (scan t) as [n|] eqn:E; [|discriminate].
  intros [= <-]. exists n.
  assert (Hn : match n with Decimal _ m _ => (0 <= m)%Z | _ => True end).
  { destruct n as [| |neg m e]; try exact I. now apply scan_decimal_nonneg in E. }
  destruct (float_value_class n Hn) as (H1 & H2 & H3). auto.
Qed.

(** C8, as stated, fails: [float] reads [inf] and [nan], and a numeral beyond
    the range becomes an infinity. *)
Lemma parse_not_finite :
  parse_client_coordinates (Some "inf,nan")
  = (Some {| lon := nan; lat := infinity |}, [])
  /\ is_finite nan = false /\ is_finite infinity = false
  /\ parsed (Some "1e999,0") = Some {| lon := 0; lat := infinity |}
  /\ ~ (forall s p, parsed (Some s) = Some p ->
          is_finite (lon p) = true /\ is_finite (lat p) = true).
Proof.
  split; [reflexivity|]. split; [reflexivity|]. split; [reflexivity|].
  split; [reflexivity|].
  intros H. destruct (H "inf,nan" {| lon := nan; lat := infinity |} eq_refl) as [H1 _].
  discriminate H1.
Qed.

(** C8, amended. When [parse_client_coordinates] returns a point, its two
    components are what the two tokens spell, latitude first, and the spelling
    decides the class: a component is a NaN exactly when its token spells
    [nan]; it is an infinity exactly when its token spells [inf] or
    [infinity], or is a decimal numeral of magnitude [2 ^ 1024 - 2 ^ 970] or
    more; it is finite exactly when its token is a decimal numeral of
    magnitude below [2 ^ 1024 - 2 ^ 970]. *)
Theorem parsed_point_class (s : string) (p : Point) :
  parsed (Some s) = Some p ->
  exists t0 t1,
    split_sep "," s = [t0; t1] /\ spelled t0 (lat p) /\ spelled t1 (lon p).
Proof.
  intros H. apply parsed_some, unpack_pair_inr in H.
  destruct H as (t0 & t1 & E & H0 & H1).
  exists t0, t1. auto using py_float_spelled.
Qed.

Lemma parsed_point_class_witness :
  exists t0 t1,
    split_sep "," "12.5,34.2" = [t0; t1]
    /\ spelled t0 12.5%float /\ spelled t1 0x1.119999999999ap+5%float.
Proof.
  apply (parsed_point_class "12.5,34.2"
           {| lon := 0x1.119999999999ap+5; lat := 12.5 |}).
  reflexivity.
Defined.

(** The numerals of the example are below the threshold, hence finite; the
    threshold lies between the two 17-digit numerals around the largest
    finite number. *)
Example coordinates_finite :
  is_finite 12.5 = true /\ is_finite 0x1.119999999999ap+5 = true
  /\ scan "12.5" = Some (Decimal false 125 (-1))
  /\ within_range 125 (-1)
  /\ py_float "1.7976931348623158e308" = Some 0x1.fffffffffffffp+1023%float
  /\ within_range 17976931348623158 292
  /\ py_float "1.7976931348623159e308" = Some infinity
  /\ ~ within_range 17976931348623159 292.
Proof.
  split; [reflexivity|]. split; [reflexivity|]. split; [reflexivity|].
  split; [reflexivity|]. split; [vm_compute; reflexivity|].
  split; [reflexivity|]. split; [vm_compute; reflexivity|].
  vm_compute. discriminate.
Qed.

End PointClaims.

(** * More of the code *)

(** ** Ray casting: more of what the loop does *)

Module RayMore.

Import PyFloat PyFloatFacts Ray RaySpec RayFacts RayClaims.
Local Open Scope float_scope.

Lemma lt_nan_r (a y : float) : is_nan y = true -> lt a y = false.
Proof.
  rewrite PyFloatOfStrFacts.is_nan_spec. unfold lt. rewrite ltb_spec.
  destruct (Prim2SF y); try discriminate. intros _.
  unfold SFltb. now destruct (Prim2SF a).
Qed.

Lemma le_nan_l (x b : float) : is_nan x = true -> le x b = false.
Proof.
  rewrite PyFloatOfStrFacts.is_nan_spec. unfold le. rewrite leb_spec.
  destruct (Prim2SF x); try discriminate. reflexivity.
Qed.

Lemma le_not_lt (y v : float) : le y v = true -> lt v y = false.
Proof.
  intros H. destruct (lt v y) eqn:E; [|reflexivity].
  apply lt_not_le in E. congruence.
Qed.

Lemma min_cases (a b : float) : min a b = a \/ min a b = b.
Proof. unfold min. destruct (lt b a); auto. Qed.

Lemma max_cases (a b : float) : max a b = a \/ max a b = b.
Proof. unfold max. destruct (gt b a); auto. Qed.

(** The two ends of a ring edge are vertices of the ring. *)
Lemma ring_edges_in (coords : list vertex) (p1 p2 : vertex) :
  In (p1, p2) (ring_edges coords) -> In p1 coords /\ In p2 coords.
Proof.
  unfold ring_edges. intros H. split.
  - now apply in_combine_l in H.
  - apply in_combine_r in H. apply in_app_or in H. destruct H as [H | H].
    + destruct coords; [destruct H | now right].
    + destruct coords as [|c0 rest]; [destruct H|].
      cbn in H. destruct H as [<- | []]. now left.
Qed.

Lemma no_crossing_outside (x y : float) (coords : list vertex) :
  (forall e, In e (ring_edges coords) -> crossing x y e = false) ->
  coords <> [] ->
  contains_point (mkPolygon coords) (mkPoint x y) = Ok false.
Proof.
  intros H Hne. rewrite contains_point_odd by assumption. cbn [lon lat].
  unfold crossings.
  replace (filter (crossing x y) (ring_edges coords)) with (@nil (vertex * vertex));
    [reflexivity|].
  symmetry. induction (ring_edges coords) as [|e es IH]; cbn; [reflexivity|].
  rewrite (H e) by now left. apply IH. intros e' He'. apply H. now right.
Qed.

(** An edge from a vertex to itself is never crossed. *)
Lemma crossing_loop (x y : float) (v : vertex) : crossing x y (v, v) = false.
Proof.
  destruct v as [vx vy]. unfold crossing.
  destruct (gt y (min vy vy)) eqn:Hlo; [|reflexivity].
  destruct (le y (max vy vy)) eqn:Hhi; [|reflexivity].
  exfalso. destruct (between_min_max vy vy y Hlo Hhi) as [H | H];
    pose proof (lt_not_le _ _ H) as H'; unfold lt, le in *;
    rewrite leb_spec in H'; rewrite ltb_spec in H;
    unfold SFltb, SFleb in *; destruct (SFcompare _ _) as [[]|]; discriminate.
Qed.

(** X1. A point with a NaN coordinate is inside no polygon: every range test
    of the loop is false for it. *)
Theorem nan_point_outside (self : Polygon) (point : Point)
        (polygons : list Polygon) :
  is_nan (lon point) = true \/ is_nan (lat point) = true ->
  (coordinates self <> [] -> contains_point self point = Ok false)
  /\ (Forall ZoneClaims.ringed polygons ->
      point_in_any_polygon (Some point) polygons = Ok false).
Proof.
  intros Hnan.
  assert (Hone : forall p, coordinates p <> [] -> contains_point p point = Ok false).
  { intros [coords] Hne. destruct point as [x y]. cbn [lon lat coordinates] in *.
    apply no_crossing_outside; [|exact Hne].
    intros [[p1x p1y] [p2x p2y]] _. unfold crossing.
    destruct Hnan as [Hx | Hy].
    - rewrite (le_nan_l x _ Hx). now rewrite !andb_false_r.
    - unfold gt. now rewrite (lt_nan_r _ y Hy). }
  split; [apply Hone|].
  intros Hall. cbn [point_in_any_polygon].
  induction Hall as [|p rest Hp _ IH]; cbn [any_polygon]; [reflexivity|].
  rewrite (Hone p Hp). cbn [bind]. exact IH.
Qed.

Lemma nan_point_outside_witness :
  contains_point (mkPolygon [(0, 0); (4, 0); (4, 4); (0, 4)]) (mkPoint nan 2)
  = Ok false.
Proof.
  apply (proj1 (nan_point_outside (mkPolygon [(0, 0); (4, 0); (4, 4); (0, 4)])
                                  (mkPoint nan 2) [] (or_introl eq_refl))).
  discriminate.
Defined.

(** X2. A point strictly to the right of every vertex, strictly above every
    vertex, or at or below every vertex is outside the polygon. *)
Theorem outside_bounding_box (self : Polygon) (point : Point) :
  coordinates self <> [] ->
  (forall v, In v (coordinates self) -> lt (fst v) (lon point) = true)
  \/ (forall v, In v (coordinates self) -> lt (snd v) (lat point) = true)
  \/ (forall v, In v (coordinates self) -> le (lat point) (snd v) = true) ->
  contains_point self point = Ok false.
Proof.
  destruct self as [coords], point as [x y]. cbn [coordinates lon lat].
  intros Hne Hbox. apply no_crossing_outside; [|exact Hne].
  intros [[p1x p1y] [p2x p2y]] He. apply ring_edges_in in He.
  destruct He as [H1 H2]. unfold crossing.
  destruct Hbox as [Hr | [Ha | Hb]].
  - pose proof (Hr _ H1) as R1. pose proof (Hr _ H2) as R2. cbn [fst] in R1, R2.
    apply lt_not_le in R1. apply lt_not_le in R2.
    destruct (max_cases p1x p2x) as [-> | ->]; rewrite ?R1, ?R2;
      rewrite ?andb_false_r; reflexivity.
  - pose proof (Ha _ H1) as R1. pose proof (Ha _ H2) as R2. cbn [snd] in R1, R2.
    apply lt_not_le in R1. apply lt_not_le in R2.
    destruct (max_cases p1y p2y) as [-> | ->]; rewrite ?R1, ?R2;
      rewrite ?andb_false_r; reflexivity.
  - pose proof (Hb _ H1) as R1. pose proof (Hb _ H2) as R2. cbn [snd] in R1, R2.
    apply le_not_lt in R1. apply le_not_lt in R2. unfold gt.
    fold (lt (min p1y p2y) y).
    destruct (min_cases p1y p2y) as [-> | ->]; rewrite ?R1, ?R2; reflexivity.
Qed.

Lemma outside_bounding_box_witness :
  contains_point (mkPolygon [(0, 0); (4, 0); (4, 4); (0, 4)]) (mkPoint 5 2)
  = Ok false.
Proof.
  apply (outside_bounding_box (mkPolygon [(0, 0); (4, 0); (4, 4); (0, 4)])
                              (mkPoint 5 2)).
  - discriminate.
  - left. cbn [coordinates]. intros v [<- | [<- | [<- | [<- | []]]]]; reflexivity.
Defined.

Lemma crossings_duplicate (x y : float) (l1 l2 : list vertex) (v : vertex) :
  crossings x y (l1 ++ v :: v :: l2) = crossings x y (l1 ++ v :: l2).
Proof.
  unfold crossings. destruct l1 as [|a l1]; cbn [app].
  - rewrite !ring_edges_cons. cbn [app edges_from filter].
    now rewrite crossing_loop.
  - rewrite !ring_edges_cons, <- !app_assoc. cbn [app].
    rewrite (edges_from_app l1 (v :: l2 ++ [a]) a v).
    rewrite (edges_from_app l1 (l2 ++ [a]) a v).
    cbn [edges_from]. rewrite !filter_app. cbn [filter].
    now rewrite crossing_loop.
Qed.

Lemma crossings_closed (x y : float) (c0 : vertex) (rest : list vertex) :
  crossings x y ((c0 :: rest) ++ [c0]) = crossings x y (c0 :: rest).
Proof.
  unfold crossings. cbn [app]. rewrite !ring_edges_cons.
  rewrite <- (app_assoc rest [c0] [c0]). cbn [app].
  rewrite (edges_from_app rest [c0] c0 c0). cbn [edges_from].
  rewrite filter_app. cbn [filter]. rewrite crossing_loop.
  cbn [filter]. now rewrite app_nil_r.
Qed.

(** X3. Writing a vertex twice in a row does not change the answer, and
    neither does closing the ring by repeating its first vertex at the end,
    as KML rings do. *)
Theorem repeated_vertex (point : Point) :
  (forall l1 v l2,
      contains_point (mkPolygon (l1 ++ v :: v :: l2)) point
      = contains_point (mkPolygon (l1 ++ v :: l2)) point)
  /\ (forall c0 rest,
         contains_point (mkPolygon ((c0 :: rest) ++ [c0])) point
         = contains_point (mkPolygon (c0 :: rest)) point).
Proof.
  split.
  - intros l1 v l2.
    rewrite !contains_point_odd by (destruct l1; discriminate).
    now rewrite crossings_duplicate.
  - intros c0 rest. rewrite !contains_point_odd by discriminate.
    now rewrite crossings_closed.
Qed.

End RayMore.

(** ** Zone membership: composition and failure *)

Module ZoneMore.

Import RaySpec RayFacts RayClaims ZoneClaims.
Local Open Scope float_scope.

Lemma any_polygon_app (point : Point) (l1 l2 : list Polygon) :
  any_polygon point (l1 ++ l2)
  = (b <- any_polygon point l1 ;; if b then Ok true else any_polygon point l2).
Proof.
  induction l1 as [|p l1 IH]; cbn [app any_polygon bind]; [reflexivity|].
  destruct (contains_point p point) as [[|]|e]; cbn [bind]; auto.
Qed.

(** X4. The test over two lists put end to end is the test over the first,
    then, if that found nothing, over the second: a point found in the first
    list stays found whatever is appended, and for polygons that each have a
    vertex the answer is the disjunction of the two answers. *)
Theorem zone_append (point : Point) (l1 l2 : list Polygon) :
  point_in_any_polygon (Some point) (l1 ++ l2)
  = (b <- point_in_any_polygon (Some point) l1 ;;
     if b then Ok true else point_in_any_polygon (Some point) l2)
  /\ (point_in_any_polygon (Some point) l1 = Ok true ->
      point_in_any_polygon (Some point) (l1 ++ l2) = Ok true)
  /\ (Forall ringed l1 -> Forall ringed l2 ->
      exists b1 b2,
        point_in_any_polygon (Some point) l1 = Ok b1
        /\ point_in_any_polygon (Some point) l2 = Ok b2
        /\ point_in_any_polygon (Some point) (l1 ++ l2) = Ok (b1 || b2)).
Proof.
  cbn [point_in_any_polygon]. split; [apply any_polygon_app|]. split.
  - intros H. now rewrite any_polygon_app, H.
  - intros H1 H2.
    destruct (any_polygon_ok point l1 H1) as (b1 & E1 & _).
    destruct (any_polygon_ok point l2 H2) as (b2 & E2 & _).
    exists b1, b2. rewrite any_polygon_app, E1, E2. cbn [bind].
    now destruct b1.
Qed.

Lemma zone_append_witness :
  let square := mkPolygon [(0, 0); (4, 0); (4, 4); (0, 4)] in
  point_in_any_polygon (Some (mkPoint 2 2)) ([square] ++ [mkPolygon []]) = Ok true.
Proof.
  cbv zeta.
  apply (proj1 (proj2 (zone_append (mkPoint 2 2)
                         [mkPolygon [(0, 0); (4, 0); (4, 4); (0, 4)]]
                         [mkPolygon []]))).
  reflexivity.
Defined.

(** X5. For polygons that each have a vertex the answer does not depend on
    their order in the list. *)
Theorem zone_order (point : Point) (l1 l2 : list Polygon) :
  Forall ringed l1 ->
  (forall p, In p l1 <-> In p l2) ->
  point_in_any_polygon (Some point) l2 = point_in_any_polygon (Some point) l1.
Proof.
  intros H1 Hsame. cbn [point_in_any_polygon].
  assert (H2 : Forall ringed l2).
  { rewrite Forall_forall in *. intros p Hp. apply H1. now apply Hsame. }
  destruct (any_polygon_ok point l1 H1) as (b1 & E1 & I1).
  destruct (any_polygon_ok point l2 H2) as (b2 & E2 & I2).
  rewrite E1, E2. f_equal.
  assert (Hiff : b1 = true <-> b2 = true).
  { rewrite I1, I2. split; intros (p & Hp & Hc); exists p; split; auto;
      now apply Hsame. }
  destruct b1, b2; try reflexivity; destruct Hiff as [Ha Hb];
    [now rewrite Ha | now rewrite Hb].
Qed.

Lemma zone_order_witness :
  let square := mkPolygon [(0, 0); (4, 0); (4, 4); (0, 4)] in
  let far_square := mkPolygon [(10, 10); (14, 10); (14, 14); (10, 14)] in
  point_in_any_polygon (Some (mkPoint 12 12)) [far_square; square]
  = point_in_any_polygon (Some (mkPoint 12 12)) [square; far_square].
Proof.
  cbv zeta. apply zone_order.
  - repeat constructor; discriminate.
  - intros p. cbn. tauto.
Defined.

(** X6. A polygon without vertices makes the test raise [IndexError] as soon
    as it is reached, that is unless an earlier polygon contains the point. *)
Theorem zone_empty_polygon (point : Point) (before after : list Polygon) :
  (forall q, In q before -> contains_point q point = Ok false) ->
  point_in_any_polygon (Some point) (before ++ mkPolygon [] :: after)
  = Raise IndexError.
Proof.
  intros Hbefore. cbn [point_in_any_polygon].
  induction before as [|q before IH]; cbn [app any_polygon].
  - reflexivity.
  - rewrite (Hbefore q) by now left. cbn [bind].
    apply IH. intros r Hr. apply Hbefore. now right.
Qed.

Lemma zone_empty_polygon_witness :
  point_in_any_polygon (Some (mkPoint 7 7))
    ([mkPolygon [(0, 0); (4, 0); (4, 4); (0, 4)]] ++ mkPolygon [] :: [])
  = Raise IndexError.
Proof.
  apply zone_empty_polygon. intros q [<- | []]. reflexivity.
Defined.

End ZoneMore.

(** ** Strings: more facts about [strip] and [split] *)

Module PyStrMore.

Import PyStr PyStrFacts.
Local Open Scope char_scope.

Lemma forallb_reverse (A : Type) (f : A -> bool) (l : list A) :
  forallb f (rev l) = forallb f l.
Proof.
  induction l as [|a l IH]; cbn; [reflexivity|].
  rewrite forallb_app, IH. cbn. rewrite andb_true_r. apply andb_comm.
Qed.






Lemma span_parts (A : Type) (f : A -> bool) (l : list A) :
  l = fst (span f l) ++ snd (span f l) /\ forallb f (fst (span f l)) = true.
Proof.
  induction l as [|c l [IH1 IH2]]; cbn [span]; [now split|].
  destruct (f c) eqn:Hc; [|now split].
  destruct (span f l) as [t o]. cbn [fst snd app forallb] in *.
  split; [now f_equal | now rewrite Hc].
Qed.

Lemma split_ws_head (c : ascii) (rest : list ascii) :
  isspace c = false -> split_ws (c :: rest) <> [].
Proof.
  intros Hc. cbn [split_ws]. rewrite Hc.
  destruct rest as [|c' rest']; [discriminate|].
  destruct (isspace c'); [discriminate|].
  destruct (split_ws (c' :: rest')); discriminate.
Qed.

(** A space cuts the list of words in two. *)
Lemma split_ws_cut (c : ascii) (l2 : list ascii) :
  isspace c = true ->
  forall l1, split_ws (l1 ++ c :: l2) = split_ws l1 ++ split_ws l2.
Proof.
  intros Hc. induction l1 as [|a l1 IH].
  - cbn [app split_ws]. now rewrite Hc.
  - cbn [app]. destruct l1 as [|a' l1'].
    + cbn [app split_ws]. rewrite Hc.
      destruct (isspace a); reflexivity.
    + cbn [app] in IH |- *.
      change (split_ws (a :: a' :: l1' ++ c :: l2))
        with (if isspace a then split_ws (a' :: l1' ++ c :: l2)
              else if isspace a' then [a] :: split_ws (a' :: l1' ++ c :: l2)
                   else match split_ws (a' :: l1' ++ c :: l2) with
                        | piece :: pieces => (a :: piece) :: pieces
                        | [] => [[a]]
                        end).
      change (split_ws (a :: a' :: l1'))
        with (if isspace a then split_ws (a' :: l1')
              else if isspace a' then [a] :: split_ws (a' :: l1')
                   else match split_ws (a' :: l1') with
                        | piece :: pieces => (a :: piece) :: pieces
                        | [] => [[a]]
                        end).
      rewrite IH.
      destruct (isspace a); [reflexivity|].
      destruct (isspace a') eqn:Ha'; [reflexivity|].
      pose proof (split_ws_head a' l1' Ha') as Hne.
      destruct (split_ws (a' :: l1')); [congruence | reflexivity].
Qed.

Lemma split_ws_blank (b : list ascii) :
  forallb isspace b = true -> split_ws b = [].
Proof.
  induction b as [|c b IH]; cbn; [reflexivity|].
  intros H. apply andb_true_iff in H. destruct H as [Hc Hb].
  rewrite Hc. now apply IH.
Qed.

Lemma split_ws_blanks (b1 l b2 : list ascii) :
  forallb isspace b1 = true -> forallb isspace b2 = true ->
  split_ws (b1 ++ l ++ b2) = split_ws l.
Proof.
  intros H1 H2.
  assert (Hl : forall b l', forallb isspace b = true ->
                            split_ws (b ++ l') = split_ws l').
  { induction b as [|c b IH]; cbn; intros l' H; [reflexivity|].
    apply andb_true_iff in H. destruct H as [Hc Hb]. rewrite Hc. now apply IH. }
  rewrite Hl by assumption.
  destruct b2 as [|c b2]; [now rewrite app_nil_r|].
  cbn in H2. apply andb_true_iff in H2. destruct H2 as [Hc Hb].
  rewrite split_ws_cut by assumption.
  now rewrite (split_ws_blank b2 Hb), app_nil_r.
Qed.

(** The words of a string are those of the stripped string. *)
Lemma split_ws_strip (l : list ascii) :
  split_ws (strip_by isspace l) = split_ws l.
Proof.
  unfold strip_by, lstrip_by.
  destruct (span_parts _ isspace l) as [E1 B1].
  destruct (span isspace l) as [blank1 m]. cbn [fst snd] in *.
  destruct (span_parts _ isspace (rev m)) as [E2 B2].
  destruct (span isspace (rev m)) as [blank2 core]. cbn [fst snd] in *.
  assert (Em : m = rev core ++ rev blank2).
  { rewrite <- rev_app_distr, <- E2. now rewrite rev_involutive. }
  rewrite E1, Em. symmetry. apply split_ws_blanks; [exact B1|].
  now rewrite forallb_reverse.
Qed.

Lemma chars_str (l : list ascii) : chars (str l) = l.
Proof. apply list_ascii_of_string_of_list_ascii. Qed.

End PyStrMore.

(** ** KML boundaries: more of what the extractor does *)

Module KmlMore.

Import PyStr PyStrFacts PyStrMore PyFloatOfStr Kml KmlClaims.
Local Open Scope string_scope.

Lemma split_sep_three (sep : ascii) (s1 s2 r : string) :
  free_of sep (chars s1) = true -> free_of sep (chars s2) = true ->
  split_sep sep (s1 ++ String sep (s2 ++ String sep r))
  = s1 :: s2 :: split_sep sep r.
Proof.
  intros H1 H2. unfold split_sep. rewrite chars_app.
  change (chars (String sep (s2 ++ String sep r)))
    with (sep :: chars (s2 ++ String sep r)).
  rewrite split_on_cut by assumption. rewrite chars_app.
  change (chars (String sep r)) with (sep :: chars r).
  rewrite split_on_cut by assumption.
  cbn [map]. now rewrite !str_chars.
Qed.

(** X7. Whatever follows the second comma of a tuple is never read: the
    elevation, numeric or not, and any further field leave the vertex as it
    is without them. *)
Theorem elevation_ignored (p0 p1 r : string) :
  ClientClaims.no_comma p0 -> ClientClaims.no_comma p1 ->
  parse_coord_set (p0 ++ "," ++ p1 ++ "," ++ r) = parse_coord_set (p0 ++ "," ++ p1).
Proof.
  intros H0 H1. unfold parse_coord_set.
  change (p0 ++ "," ++ p1 ++ "," ++ r)
    with (p0 ++ String ","%char (p1 ++ String ","%char r)).
  change (p0 ++ "," ++ p1) with (p0 ++ String ","%char p1).
  rewrite split_sep_three, split_sep_pair by assumption. reflexivity.
Qed.

Lemma elevation_ignored_witness :
  parse_coord_set ("-58.5" ++ "," ++ "-34.5" ++ "," ++ "x,y")
  = parse_coord_set ("-58.5" ++ "," ++ "-34.5").
Proof. apply elevation_ignored; reflexivity. Defined.

Lemma split_strip (s : string) : split (strip s) = split s.
Proof.
  unfold split, strip. now rewrite chars_str, split_ws_strip.
Qed.

(** X8. The vertices of a coordinate text depend on its words alone, so the
    [strip] before [split] changes nothing, and two texts joined by a space
    character give the vertices of the first followed by those of the
    second. *)
Theorem kml_coordinates_words (s1 s2 : string) (c : ascii) :
  parse_kml_coordinates s1 = filter_map parse_coord_set (split s1)
  /\ (isspace c = true ->
      parse_kml_coordinates (s1 ++ String c s2)
      = (parse_kml_coordinates s1 ++ parse_kml_coordinates s2)%list).
Proof.
  unfold parse_kml_coordinates. rewrite !split_strip. split; [reflexivity|].
  intros Hc. unfold split. rewrite chars_app.
  change (chars (String c s2)) with (c :: chars s2).
  rewrite split_ws_cut by assumption.
  now rewrite map_app, filter_map_app.
Qed.

Lemma kml_coordinates_words_witness :
  parse_kml_coordinates ("0,0 4,0" ++ String " "%char "4,4 0,4")
  = (parse_kml_coordinates "0,0 4,0" ++ parse_kml_coordinates "4,4 0,4")%list.
Proof.
  apply (proj2 (kml_coordinates_words "0,0 4,0" "4,4 0,4" " "%char)).
  reflexivity.
Defined.

Lemma polygon_of_length (e : element) : (List.length (polygon_of e) <= 1)%nat.
Proof.
  destruct (polygon_of_cases e) as [-> | (ob & t & _ & _ & _ & _ & ->)];
    cbn; lia.
Qed.

(** X9. A document gives at most one polygon for each [Polygon] element
    below its root. *)
Theorem load_kml_polygons_count (root : element) :
  (List.length (load_kml_polygons root)
   <= List.length (findall_polygons root))%nat.
Proof.
  unfold load_kml_polygons.
  induction (findall_polygons root) as [|e es IH]; cbn [flat_map]; [cbn; lia|].
  rewrite length_app. cbn [List.length].
  pose proof (polygon_of_length e). lia.
Qed.

Lemma below_children (t : string) (x : option string) (cs : list element) :
  tl (iter (Element t x cs)) = flat_map iter cs.
Proof.
  cbn [iter tl]. induction cs as [|c cs IH]; cbn [flat_map]; [reflexivity|].
  now rewrite IH.
Qed.

Lemma descendants_skip (name t : string) (x : option string)
      (cs1 cs2 : list element) (other : element) :
  (forall d, In d (iter other) -> tag d <> name) ->
  descendants name (Element t x (cs1 ++ other :: cs2))
  = descendants name (Element t x (cs1 ++ cs2)).
Proof.
  intros H. unfold descendants. rewrite !below_children, !flat_map_app.
  cbn [flat_map]. rewrite !filter_app. f_equal.
  replace (filter (fun d => tag d =? name) (iter other)) with (@nil element);
    [reflexivity|].
  symmetry. induction (iter other) as [|d ds IH]; cbn [filter]; [reflexivity|].
  destruct (String.eqb_spec (tag d) name) as [E | _].
  - exfalso. apply (H d); [now left | exact E].
  - apply IH. intros d' Hd'. apply H. now right.
Qed.

(** X10. A child of a [Polygon] element with no [outerBoundaryIs] in it, such
    as an inner boundary, has no effect on the polygon extracted: holes are
    not read. *)
Theorem inner_boundary_ignored (t : string) (x : option string)
        (cs1 cs2 : list element) (hole : element) :
  (forall d, In d (iter hole) -> tag d <> ns ++ "outerBoundaryIs") ->
  polygon_of (Element t x (cs1 ++ hole :: cs2))
  = polygon_of (Element t x (cs1 ++ cs2)).
Proof.
  intros H. unfold polygon_of, find_outer_coordinates.
  now rewrite descendants_skip.
Qed.

Lemma inner_boundary_ignored_witness :
  let ring := fun name coords =>
    Element (ns ++ name) None
      [Element (ns ++ "LinearRing") None
         [Element (ns ++ "coordinates") (Some coords) []]] in
  polygon_of (Element (ns ++ "Polygon") None
                ([ring "outerBoundaryIs" "0,0 4,0 4,4 0,4"]
                 ++ ring "innerBoundaryIs" "1,1 2,1 2,2" :: []))
  = polygon_of (Element (ns ++ "Polygon") None
                  ([ring "outerBoundaryIs" "0,0 4,0 4,4 0,4"] ++ [])).
Proof.
  cbv zeta. apply inner_boundary_ignored.
  cbn. intros d [<- | [<- | [<- | []]]]; discriminate.
Defined.

End KmlMore.

(** ** The client parser: more of what it accepts and prints *)

Module ClientMore.

Import PyStr PyStrFacts PyStrMore PyFloatOfStr Client ClientClaims.
Local Open Scope string_scope.









(** A string without a character that [split()] cuts at. *)
Definition spaceless (s : string) : Prop :=
  forallb (fun c => negb (isspace c)) (chars s) = true.

Lemma span_none (f : ascii -> bool) (l : list ascii) :
  forallb (fun c => negb (f c)) l = true -> span f l = ([], l).
Proof.
  destruct l as [|c rest]; [reflexivity|]. cbn [forallb span].
  intros H. apply andb_prop in H. destruct H as [H _].
  now destruct (f c).
Qed.

Lemma strip_by_none (f : ascii -> bool) (l : list ascii) :
  forallb (fun c => negb (f c)) l = true -> strip_by f l = l.
Proof.
  intros H. unfold strip_by, lstrip_by.
  rewrite (span_none f l H). cbn [snd].
  rewrite span_none by now rewrite forallb_reverse.
  cbn [snd]. apply rev_involutive.
Qed.

Lemma split_ws_none (l : list ascii) :
  l <> [] -> forallb (fun c => negb (isspace c)) l = true -> split_ws l = [l].
Proof.
  induction l as [|c rest IH]; [congruence|]. intros _ H.
  cbn [forallb] in H. apply andb_prop in H. destruct H as [Hc Hrest].
  cbn [split_ws]. destruct (isspace c); [discriminate Hc|].
  destruct rest as [|c' rest']; [reflexivity|].
  assert (Hc' : isspace c' = false).
  { cbn [forallb] in Hrest. apply andb_prop in Hrest.
    destruct Hrest as [Hc' _]. now destruct (isspace c'). }
  rewrite Hc'. rewrite IH by (congruence || exact Hrest). reflexivity.
Qed.

Lemma parsed_nonempty (p : Point) : parsed (Some "") <> Some p.
Proof. discriminate. Qed.

(** X12. The client parser and the KML parser read the same text with the
    two numbers in opposite roles: for a string without whitespace that the
    client parser reads as a point, [parse_kml_coordinates] returns the single
    vertex whose first component, the longitude of the polygons, is the
    point's latitude and whose second is the point's longitude. *)
Theorem client_and_kml_order (s : string) (p : Point) :
  spaceless s ->
  parsed (Some s) = Some p ->
  Kml.parse_kml_coordinates s = [(lat p, lon p)].
Proof.
  intros Hs H.
  assert (Hne : chars s <> []).
  { destruct s; [now apply parsed_nonempty in H | discriminate]. }
  unfold Kml.parse_kml_coordinates, strip, split.
  rewrite strip_by_none by exact Hs.
  rewrite chars_str, split_ws_none by assumption.
  cbn [map Kml.filter_map]. rewrite str_chars.
  apply parsed_some, unpack_pair_inr in H.
  destruct H as (t0 & t1 & E & H0 & H1).
  unfold Kml.parse_coord_set. now rewrite E, H0, H1.
Qed.

Lemma client_and_kml_order_witness :
  Kml.parse_kml_coordinates "12.5,34.2" = [(12.5, 0x1.119999999999ap+5)%float].
Proof.
  apply (client_and_kml_order "12.5,34.2"
           {| lon := 0x1.119999999999ap+5; lat := 12.5 |});
    reflexivity.
Defined.



End ClientMore.

(** ** The pipeline on any table *)

Module FrameMore.

Import Kml Client Frame Report FrameClaims.
Local Open Scope string_scope.
Local Open Scope list_scope.

Lemma has_column_in (df : DataFrame) (label : string) :
  has_column df label = true <-> In label (labels df).
Proof.
  unfold has_column. rewrite existsb_exists. split.
  - intros (x & Hx & E). apply String.eqb_eq in E. now subst.
  - intros H. exists label. split; [exact H | apply String.eqb_refl].
Qed.

Lemma getitem_col_missing (df : DataFrame) (label : string) :
  ~ In label (labels df) -> getitem_col df label = Raise KeyError.
Proof.
  induction df as [|[l col] df IH]; cbn; [reflexivity|].
  intros H. destruct (String.eqb_spec l label) as [-> | _]; [tauto|].
  apply IH. tauto.
Qed.


Lemma getitem_setitem_same (df : DataFrame) (label : string) (values : list cell) :
  getitem_col (setitem df label values) label = Ok values.
Proof.
  induction df as [|[l col] df IH]; cbn.
  - now rewrite String.eqb_refl.
  - destruct (String.eqb_spec l label) as [-> | Hne]; cbn.
    + now rewrite String.eqb_refl.
    + destruct (String.eqb_spec l label); [congruence | exact IH].
Qed.

Lemma getitem_setitem_other (df : DataFrame) (label other : string)
      (values : list cell) :
  other <> label ->
  getitem_col (setitem df label values) other = getitem_col df other.
Proof.
  intros Hne. induction df as [|[l col] df IH]; cbn.
  - destruct (String.eqb_spec label other); [congruence | reflexivity].
  - destruct (String.eqb_spec l label) as [-> | Hl]; cbn.
    + destruct (String.eqb_spec label other); [congruence | reflexivity].
    + destruct (String.eqb_spec l other); [reflexivity | exact IH].
Qed.

Lemma labels_setitem (df : DataFrame) (label x : string) (values : list cell) :
  In x (labels (setitem df label values)) <-> x = label \/ In x (labels df).
Proof.
  induction df as [|[l col] df IH]; cbn.
  - intuition congruence.
  - destruct (String.eqb_spec l label) as [-> | Hl]; cbn.
    + intuition congruence.
    + rewrite IH. intuition congruence.
Qed.

Lemma getitem_filter_other (df : DataFrame) (label other : string) :
  other <> label ->
  getitem_col (filter (fun c => negb (String.eqb (fst c) label)) df) other
  = getitem_col df other.
Proof.
  intros Hne. induction df as [|[l col] df IH]; cbn; [reflexivity|].
  destruct (String.eqb_spec l label) as [-> | Hl]; cbn.
  - destruct (String.eqb_spec label other); [congruence | exact IH].
  - destruct (String.eqb_spec l other); [reflexivity | exact IH].
Qed.

Lemma labels_filter (df : DataFrame) (label x : string) :
  In x (labels (filter (fun c => negb (String.eqb (fst c) label)) df))
  <-> x <> label /\ In x (labels df).
Proof.
  unfold labels. rewrite in_map_iff. split.
  - intros ([l col] & <- & H). apply filter_In in H. destruct H as [H E].
    cbn in *. apply negb_true_iff, String.eqb_neq in E.
    split; [exact E|]. apply in_map_iff. now exists (l, col).
  - intros [Hne H]. apply in_map_iff in H. destruct H as ([l col] & <- & H).
    exists (l, col). split; [reflexivity|]. apply filter_In. split; [exact H|].
    cbn in *. now apply negb_true_iff, String.eqb_neq.
Qed.

Lemma height_setitem (n : nat) (df : DataFrame) (label : string)
      (values : list cell) :
  height n df -> List.length values = n -> height n (setitem df label values).
Proof.
  unfold height. intros H Hv. induction df as [|[l col] df IH]; cbn.
  - constructor; [exact Hv | constructor].
  - inversion H as [|c df' Hc Hrest]; subst.
    destruct (String.eqb l label); constructor; auto.
Qed.

Lemma height_filter (n : nat) (df : DataFrame) (f : string * list cell -> bool) :
  height n df -> height n (filter f df).
Proof.
  unfold height. rewrite !Forall_forall. intros H c Hc.
  apply filter_In in Hc. now apply H.
Qed.

Lemma apply_length (A B : Type) (f : A -> result B) (l : list A) (out : list B) :
  apply f l = Ok out -> List.length out = List.length l.
Proof.
  revert out. induction l as [|a l IH]; cbn [apply]; intros out.
  - now intros [= <-].
  - destruct (f a) as [b|e]; cbn [bind]; [|discriminate].
    destruct (apply f l) as [bs|e]; cbn [bind]; [|discriminate].
    intros [= <-]. cbn. now rewrite (IH bs).
Qed.

(** What the run does on any table that has the coordinate column. *)
Lemma annotate_general (table : list (string * list (option string)))
      (polygons : list Polygon) :
  Forall ZoneClaims.ringed polygons ->
  In "Punto gps" (map fst table) ->
  exists gps flags output,
    In ("Punto gps", gps) table
    /\ getitem_col (read_csv table) "Punto gps" = Ok (map Raw gps)
    /\ Forall2 (fun s b =>
                  point_in_any_polygon (ClientClaims.parsed s) polygons = Ok b)
               gps flags
    /\ annotate (read_csv table) polygons = Ok output
    /\ output
       = filter (fun c => negb (String.eqb (fst c) "_point"))
                (setitem (setitem (read_csv table) "_point"
                                  (map parse_cell (map Raw gps)))
                         "Inside_Zone" (map Flag flags)).
Proof.
  intros Hp Hin.
  destruct (getitem_col_read table "Punto gps" Hin) as (gps & Hgps & Hget).
  destruct (apply_zone polygons Hp gps) as (flags & Hrun & Hall).
  exists gps, flags. eexists. split; [exact Hgps|]. split; [exact Hget|].
  split; [exact Hall|].
  unfold annotate. rewrite Hget. cbn [bind].
  rewrite getitem_setitem_same. cbn [bind]. rewrite Hrun. cbn [bind].
  unfold drop.
  replace (has_column _ "_point") with true; [split; reflexivity|].
  symmetry. apply has_column_in. apply labels_setitem. right.
  apply labels_setitem. now left.
Qed.

(** The cell does not make the handler's [print] raise: it is missing, or a
    coordinate pair, or made of characters the standard output can encode. *)
Definition quiet (enc : Stdout.encoding) (s : option string) : bool :=
  match s with
  | None => true
  | Some t =>
      match ClientClaims.parsed s with
      | Some _ => true
      | None => forallb (Stdout.encodable enc) (PyStr.chars t)
      end
  end.

Lemma stdout_parse_cell (enc : Stdout.encoding) (s : option string) :
  Stdout.parse_cell enc (Raw s)
  = if quiet enc s then Ok (parse_cell (Raw s)) else Raise UnicodeEncodeError.
Proof.
  unfold Stdout.parse_cell, parse_cell, quiet.
  rewrite ClientClaims.stdout_parse.
  destruct s as [t|].
  - destruct (ClientClaims.parsed (Some t)).
    + cbn [bind]. now destruct (parse_client_coordinates (Some t)).
    + destruct (forallb (Stdout.encodable enc) (PyStr.chars t)); [|reflexivity].
      cbn [bind]. now destruct (parse_client_coordinates (Some t)).
  - reflexivity.
Qed.

Lemma stdout_apply (enc : Stdout.encoding) (gps : list (option string)) :
  apply (Stdout.parse_cell enc) (map Raw gps)
  = if forallb (quiet enc) gps then Ok (map parse_cell (map Raw gps))
    else Raise UnicodeEncodeError.
Proof.
  induction gps as [|s gps IH]; [reflexivity|].
  cbn [map apply forallb]. rewrite stdout_parse_cell.
  destruct (quiet enc s); [|reflexivity].
  cbn [bind andb]. rewrite IH.
  now destruct (forallb (quiet enc) gps).
Qed.

Lemma stdout_annotate (enc : Stdout.encoding) (df : DataFrame)
      (polygons : list Polygon) (gps : list (option string)) :
  getitem_col df "Punto gps" = Ok (map Raw gps) ->
  Stdout.annotate enc df polygons
  = if forallb (quiet enc) gps then annotate df polygons
    else Raise UnicodeEncodeError.
Proof.
  intros H. unfold Stdout.annotate, annotate. rewrite H. cbn [bind].
  rewrite stdout_apply. now destruct (forallb (quiet enc) gps).
Qed.

(** [Frame.main] is [main] on a standard output whose encoding has every
    character. *)
Lemma stdout_main_all (table : list (string * list (option string)))
      (kml : element) :
  Stdout.main (fun _ => true) table kml = main table kml.
Proof.
  unfold Stdout.main, main.
  destruct (in_dec string_dec "Punto gps" (map fst table)) as [Hin | Hno].
  - destruct (getitem_col_read table "Punto gps" Hin) as (gps & _ & Hget).
    rewrite (stdout_annotate _ _ _ gps Hget).
    assert (Q : forallb (quiet (fun _ => true)) gps = true).
    { apply forallb_forall. intros s _. unfold quiet.
      destruct s as [t|]; [|reflexivity].
      rewrite ClientClaims.encodable_all. now destruct (ClientClaims.parsed (Some t)). }
    now rewrite Q.
  - unfold Stdout.annotate, annotate.
    rewrite getitem_col_missing; [reflexivity|]. now rewrite labels_read.
Qed.

(** X14. From the frame read and the document parsed to the frame handed to
    [to_csv], [main] raises in two cases and no other: [KeyError] when the
    frame has no column [Punto gps], and [UnicodeEncodeError] when a cell of
    that column is a string that is not a coordinate pair and holds a
    character the standard output cannot encode.  Otherwise the write is
    reached, whatever the coordinate strings and the KML document contain,
    with the frame computed when every [print] succeeds. *)
Theorem main_outcome (enc : Stdout.encoding)
        (table : list (string * list (option string))) (kml : element) :
  (~ In "Punto gps" (map fst table) ->
   Stdout.main enc table kml = Raise KeyError)
  /\ (In "Punto gps" (map fst table) ->
      exists gps, getitem_col (read_csv table) "Punto gps" = Ok (map Raw gps))
  /\ (forall gps,
        getitem_col (read_csv table) "Punto gps" = Ok (map Raw gps) ->
        forallb (quiet enc) gps = true ->
        exists output,
          Stdout.main enc table kml = Ok output /\ main table kml = Ok output)
  /\ (forall gps,
        getitem_col (read_csv table) "Punto gps" = Ok (map Raw gps) ->
        forallb (quiet enc) gps = false ->
        Stdout.main enc table kml = Raise UnicodeEncodeError).
Proof.
  split; [|split; [|split]].
  - intros Hno. unfold Stdout.main, Stdout.annotate.
    rewrite getitem_col_missing; [reflexivity|]. now rewrite labels_read.
  - intros Hin.
    destruct (getitem_col_read table "Punto gps" Hin) as (gps & _ & Hget).
    now exists gps.
  - intros gps Hget Hq.
    assert (Hin : In "Punto gps" (map fst table)).
    { rewrite <- labels_read.
      destruct (in_dec string_dec "Punto gps" (labels (read_csv table)))
        as [Hin | Hno]; [exact Hin|].
      rewrite (getitem_col_missing _ _ Hno) in Hget. discriminate Hget. }
    destruct (annotate_general table (load_kml_polygons kml)
                (load_kml_polygons_ringed kml) Hin)
      as (gps' & flags & output & _ & _ & _ & Hrun & _).
    exists output. split; [|exact Hrun].
    unfold Stdout.main. rewrite (stdout_annotate enc _ _ gps Hget), Hq.
    exact Hrun.
  - intros gps Hget Hq.
    unfold Stdout.main. now rewrite (stdout_annotate enc _ _ gps Hget), Hq.
Qed.

Lemma main_outcome_witness :
  Stdout.main (fun _ => false) [("Codigo", [Some "7"])] (KmlClaims.document [])
  = Raise KeyError
  /\ (exists output,
        Stdout.main (fun _ => false) [("Punto gps", [Some "abc"; None])]
          (KmlClaims.document ["x y z"]) = Ok output
        /\ main [("Punto gps", [Some "abc"; None])] (KmlClaims.document ["x y z"])
           = Ok output)
  /\ Stdout.main (fun _ => false)
       [("Punto gps", [Some "1,2"; Some (String "241"%char "")])]
       (KmlClaims.document [])
     = Raise UnicodeEncodeError.
Proof.
  split; [|split].
  - apply (proj1 (main_outcome (fun _ => false) [("Codigo", [Some "7"])]
                               (KmlClaims.document []))).
    cbn. intros [H | []]. discriminate H.
  - apply (proj1 (proj2 (proj2
             (main_outcome (fun _ => false) [("Punto gps", [Some "abc"; None])]
                           (KmlClaims.document ["x y z"])))) [Some "abc"; None]);
      reflexivity.
  - apply (proj2 (proj2 (proj2
             (main_outcome (fun _ => false)
                [("Punto gps", [Some "1,2"; Some (String "241"%char "")])]
                (KmlClaims.document [])))) [Some "1,2"; Some (String "241"%char "")]);
      reflexivity.
Defined.

(** X15. On any table with the column [Punto gps], also one that already
    has a column [_point] or [Inside_Zone], the frame written has no column
    [_point], has the flags of the rows as its column [Inside_Zone], keeps
    every other column as it was read, and has as many rows as the input. *)
Theorem main_output_columns (table : list (string * list (option string)))
        (kml : element) (n : nat) :
  In "Punto gps" (map fst table) ->
  exists gps flags output,
    main table kml = Ok output
    /\ getitem_col (read_csv table) "Punto gps" = Ok (map Raw gps)
    /\ Forall2 (fun s b =>
                  point_in_any_polygon (ClientClaims.parsed s) (load_kml_polygons kml)
                  = Ok b) gps flags
    /\ getitem_col output "Inside_Zone" = Ok (map Flag flags)
    /\ ~ In "_point" (labels output)
    /\ (forall l, l <> "_point" -> l <> "Inside_Zone" ->
          getitem_col output l = getitem_col (read_csv table) l)
    /\ (Forall (fun c => List.length (snd c) = n) table -> height n output).
Proof.
  intros Hin.
  destruct (annotate_general table (load_kml_polygons kml)
              (load_kml_polygons_ringed kml) Hin)
    as (gps & flags & output & Hgps & Hget & Hall & Hrun & Hout).
  exists gps, flags, output. split; [exact Hrun|]. split; [exact Hget|].
  split; [exact Hall|]. subst output. split; [|split; [|split]].
  - rewrite getitem_filter_other by discriminate. apply getitem_setitem_same.
  - rewrite labels_filter. tauto.
  - intros l H1 H2. rewrite getitem_filter_other by assumption.
    now rewrite !getitem_setitem_other by assumption.
  - intros Hn.
    assert (Hlen : List.length gps = n).
    { rewrite Forall_forall in Hn. exact (Hn _ Hgps). }
    apply height_filter. apply height_setitem.
    + apply height_setitem; [now apply height_read|].
      now rewrite !length_map.
    + rewrite length_map. now rewrite <- (Forall2_length Hall).
Qed.

Lemma main_output_columns_witness :
  exists gps flags output,
    main FrameClaims.table_with_flag (KmlClaims.document ["0,0 4,0 4,4 0,4"])
    = Ok output
    /\ getitem_col (read_csv FrameClaims.table_with_flag) "Punto gps"
       = Ok (map Raw gps)
    /\ getitem_col output "Inside_Zone" = Ok (map Flag flags)
    /\ ~ In "_point" (labels output).
Proof.
  destruct (main_output_columns FrameClaims.table_with_flag
              (KmlClaims.document ["0,0 4,0 4,4 0,4"]) 1)
    as (gps & flags & output & H1 & H2 & _ & H4 & H5 & _).
  - right. right. left. reflexivity.
  - exists gps, flags, output. auto.
Defined.



End FrameMore.

(** ** The report, the end of [main] and the end of [mapas.py] *)

Module ReportMore.

Import Kml Client Frame Report FrameClaims FrameMore.
Local Open Scope string_scope.
Local Open Scope list_scope.

Lemma count_flags (flags : list bool) :
  (count is_true (map Flag flags) + count is_false (map Flag flags)
   = List.length flags)%nat.
Proof.
  unfold count. induction flags as [|b flags IH]; cbn; [reflexivity|].
  destruct b; cbn; lia.
Qed.

Lemma count_inside_valid (polygons : list Polygon) (gps : list (option string))
      (flags : list bool) :
  Forall2 (fun s b =>
             point_in_any_polygon (ClientClaims.parsed s) polygons = Ok b)
          gps flags ->
  (count is_true (map Flag flags)
   <= count notna (map parse_cell (map Raw gps)))%nat.
Proof.
  unfold count. induction 1 as [|s b gps flags H _ IH]; cbn; [lia|].
  fold (ClientClaims.parsed s).
  destruct (ClientClaims.parsed s) as [p|]; cbn in *.
  - destruct b; cbn; lia.
  - injection H as <-. cbn. lia.
Qed.

Lemma count_le (f : cell -> bool) (col : list cell) :
  (count f col <= List.length col)%nat.
Proof. unfold count. apply filter_length_le. Qed.

(** X17. The three numbers printed add up: every record is counted inside or
    outside, and a record counted inside has valid coordinates. *)
Theorem summary_counts (table : list (string * list (option string)))
        (kml : element) (n : nat) :
  In "Punto gps" (map fst table) ->
  Forall (fun c => List.length (snd c) = n) table ->
  exists valid inside outside,
    summary (read_csv table) (load_kml_polygons kml) = Ok (valid, inside, outside)
    /\ (inside + outside = n)%nat
    /\ (inside <= valid)%nat /\ (valid <= n)%nat.
Proof.
  intros Hin Hn.
  destruct (getitem_col_read table "Punto gps" Hin) as (gps & Hgps & Hget).
  destruct (apply_zone (load_kml_polygons kml) (load_kml_polygons_ringed kml) gps)
    as (flags & Hrun & Hall).
  assert (Hlen : List.length gps = n).
  { rewrite Forall_forall in Hn. exact (Hn _ Hgps). }
  exists (count notna (map parse_cell (map Raw gps))),
         (count is_true (map Flag flags)), (count is_false (map Flag flags)).
  split; [|split; [|split]].
  - unfold summary. rewrite Hget. cbn [bind].
    rewrite getitem_setitem_same. cbn [bind]. rewrite Hrun. cbn [bind].
    rewrite getitem_setitem_same. reflexivity.
  - rewrite count_flags, <- (Forall2_length Hall). exact Hlen.
  - now apply count_inside_valid with (load_kml_polygons kml).
  - pose proof (count_le notna (map parse_cell (map Raw gps))) as H.
    rewrite !length_map in H. lia.
Qed.

Lemma summary_counts_witness :
  exists valid inside outside,
    summary (read_csv [("Punto gps", [Some "2,2"; Some "abc"; Some "9,9"])])
            (load_kml_polygons (KmlClaims.document ["0,0 4,0 4,4 0,4"]))
    = Ok (valid, inside, outside)
    /\ (inside + outside = 3)%nat /\ (inside <= valid)%nat /\ (valid <= 3)%nat.
Proof.
  apply (summary_counts [("Punto gps", [Some "2,2"; Some "abc"; Some "9,9"])]
                        (KmlClaims.document ["0,0 4,0 4,4 0,4"]) 3).
  - left. reflexivity.
  - repeat constructor.
Defined.



(** X19. The two drops at the end of [mapas.py] go through only for a frame
    that has a column [geometry] and a column with the empty label; otherwise
    the script stops there with [KeyError], before its write. *)
Theorem mapas_drops (gdf_clientes : DataFrame) :
  (~ In "geometry" (labels gdf_clientes) ->
   Mapas.drop_helpers gdf_clientes = Raise KeyError)
  /\ (~ In "" (labels gdf_clientes) ->
      Mapas.drop_helpers gdf_clientes = Raise KeyError)
  /\ (In "geometry" (labels gdf_clientes) -> In "" (labels gdf_clientes) ->
      exists output,
        Mapas.drop_helpers gdf_clientes = Ok output
        /\ forall x, In x (labels output)
                     <-> x <> "geometry" /\ x <> "" /\ In x (labels gdf_clientes)).
Proof.
  unfold Mapas.drop_helpers, drop. split; [|split].
  - intros H. destruct (has_column gdf_clientes "geometry") eqn:E; [|reflexivity].
    apply has_column_in in E. tauto.
  - intros H. destruct (has_column gdf_clientes "geometry"); [|reflexivity].
    cbn [bind].
    destruct (has_column (filter _ gdf_clientes) "") eqn:E; [|reflexivity].
    apply has_column_in, labels_filter in E. tauto.
  - intros Hg He.
    replace (has_column gdf_clientes "geometry") with true
      by (symmetry; now apply has_column_in).
    cbn [bind].
    replace (has_column (filter _ gdf_clientes) "") with true.
    2:{ symmetry. apply has_column_in, labels_filter. split; [discriminate | exact He]. }
    eexists. split; [reflexivity|].
    intros x. rewrite !labels_filter. tauto.
Qed.

Lemma mapas_drops_witness :
  Mapas.drop_helpers [("Codigo", [Raw (Some "7")]); ("geometry", [Geo None]);
                      ("chequeo gps", [Flag false])]
  = Raise KeyError.
Proof.
  apply (proj1 (proj2 (mapas_drops _))).
  cbn. intros [H | [H | [H | []]]]; discriminate H.
Defined.

End ReportMore.
